(** * celery.utils.functional: memoized lazy values and replayable sequences

    A shallow embedding of [mlazy], [evaluate_promises], [first], [regen]
    and [_regen] from [celery/utils/functional.py], with the properties
    the specification states about them, followed by [chunks], [padlist],
    [uniq] and [firstmethod] and what the code shows of them. *)

From Stdlib Require Import String.
From Stdlib Require Import ZArith List Bool Lia.
From Stdlib Require ListSet.
Import ListNotations.
Open Scope Z_scope.

(** ** Python values, exceptions and outcomes *)

(** The objects that flow through the functions under study.  A
    [VPromise p] is an instance of [vine.promise], identified by [p]. *)
Inductive value : Type :=
| VNone
| VInt (n : Z)
| VStr (s : string)
| VPromise (p : nat).

(** [IndexError None] is the one the builtin list raises ("list index out
    of range"); [IndexError (Some i)] is [IndexError(i)]. *)
Inductive exn : Type :=
| IndexError (arg : option Z)
| Exception (msg : string).

Inductive result (A : Type) : Type :=
| Ok (a : A)
| Raise (e : exn).
Arguments Ok {A} a.
Arguments Raise {A} e.

(** Outcome of one [next(it)]. *)
Inductive step (A : Type) : Type :=
| Yield (a : A)
| StopIteration
| Throw (e : exn).
Arguments Yield {A} a.
Arguments StopIteration {A}.
Arguments Throw {A} e.

Definition is_none (v : value) : bool :=
  match v with VNone => true | _ => false end.

(** ** [mlazy]: memoized lazy evaluation *)

Module Mlazy.
Section WithComputation.

(** The state the wrapped function reads and writes. *)
Variable W : Type.

(** [kombu.utils.functional.lazy.evaluate], the superclass method: it
    calls the stored function on the stored arguments, and either returns
    or raises. *)
Variable super_evaluate : W -> W * result value.

Record mlazy : Type := Build_mlazy { evaluated : bool; _value : value }.

(** The class attributes [evaluated = False] and [_value = None]. *)
Definition fresh : mlazy := {| evaluated := false; _value := VNone |}.

Definition evaluate (self : mlazy) (w : W) : W * mlazy * result value :=
  if negb (evaluated self) then
    match super_evaluate w with
    | (w', Ok v) => (w', {| evaluated := true; _value := v |}, Ok v)
    | (w', Raise e) => (w', self, Raise e)
    end
  else (w, self, Ok (_value self)).

(** [k] calls of [evaluate] in a row, with the outcome of each. *)
Fixpoint evaluate_times (k : nat) (self : mlazy) (w : W)
  : W * mlazy * list (result value) :=
  match k with
  | O => (w, self, [])
  | S k' =>
      let '(w1, self1, r) := evaluate self w in
      let '(w2, self2, rs) := evaluate_times k' self1 w1 in
      (w2, self2, r :: rs)
  end.

End WithComputation.

(** A computation instrumented with an invocation counter. *)
Definition counting {W : Type} (f : W -> W * result value)
  : nat * W -> (nat * W) * result value :=
  fun '(n, w) => let '(w', r) := f w in ((S n, w'), r).

(** Fails on its first invocation, returns [v] afterwards. *)
Definition flaky (v : value) : nat -> nat * result value :=
  fun n => (S n, if Nat.eqb n 0 then Raise (Exception "boom") else Ok v).

End Mlazy.

(** ** The iterator protocol *)

(** An iterator object has a state of its own ([I]) and may read and
    write objects it shares with others ([St]); [next] is [next(it)]. *)
Class Iterator (I St A : Type) : Type :=
  next : I -> St -> step A * I * St.

(** The builtin [list(it)].  It runs as long as the iterator yields, so
    the model takes fuel; [None] means the fuel ran out. *)
Fixpoint list_ {I St A : Type} `{Iterator I St A}
  (fuel : nat) (i : I) (s : St) : option (result (list A) * I * St) :=
  match fuel with
  | O => None
  | S fuel' =>
      match next i s with
      | (Yield a, i', s') =>
          match list_ fuel' i' s' with
          | Some (Ok l, i'', s'') => Some (Ok (a :: l), i'', s'')
          | other => other
          end
      | (StopIteration, i', s') => Some (Ok [], i', s')
      | (Throw e, i', s') => Some (Raise e, i', s')
      end
  end.

(** Iterating over an immutable sequence: the state is what is left. *)
#[export] Instance sequence_iterator (A : Type) : Iterator (list A) unit A :=
  fun l s =>
    match l with
    | [] => (StopIteration, [], s)
    | a :: l' => (Yield a, l', s)
    end.

(** ** [evaluate_promises] and [first] *)

Section Promises.

Variable W : Type.

(** [vine.promise.__call__]: run the promise [p]. *)
Variable call : nat -> W -> W * result value.

Context {I St : Type} `{Iterator I St value}.

(** A generator object: suspended inside its [for] loop over [i], or
    finished (it returned or raised). *)
Inductive generator : Type :=
| Suspended (i : I)
| Finished.

Definition evaluate_promises (it : I) : generator := Suspended it.

Definition evaluate_promises_next (g : generator) (s : St * W)
  : step value * generator * (St * W) :=
  match g with
  | Finished => (StopIteration, Finished, s)
  | Suspended i =>
      let '(st, w) := s in
      match next i st with
      | (Yield (VPromise p), i', st') =>
          match call p w with
          | (w', Ok v) => (Yield v, Suspended i', (st', w'))
          | (w', Raise e) => (Throw e, Finished, (st', w'))
          end
      | (Yield v, i', st') => (Yield v, Suspended i', (st', w))
      | (StopIteration, _, st') => (StopIteration, Finished, (st', w))
      | (Throw e, _, st') => (Throw e, Finished, (st', w))
      end
  end.

#[export] Instance evaluate_promises_iterator
  : Iterator generator (St * W) value := evaluate_promises_next.

(** [predicate(v) if predicate is not None else v is not None] *)
Definition matches (predicate : option (value -> bool)) (v : value) : bool :=
  match predicate with
  | Some p => p v
  | None => negb (is_none v)
  end.

(** [next((v for v in g if matches(v)), None)] *)
Fixpoint first_loop (fuel : nat) (predicate : option (value -> bool))
  (g : generator) (s : St * W) : option (result value * (St * W)) :=
  match fuel with
  | O => None
  | S fuel' =>
      match evaluate_promises_next g s with
      | (Yield v, g', s') =>
          if matches predicate v then Some (Ok v, s')
          else first_loop fuel' predicate g' s'
      | (StopIteration, _, s') => Some (Ok VNone, s')
      | (Throw e, _, s') => Some (Raise e, s')
      end
  end.

Definition first (fuel : nat) (predicate : option (value -> bool))
  (it : I) (s : St * W) : option (result value * (St * W)) :=
  first_loop fuel predicate (evaluate_promises it) s.

End Promises.

Arguments Suspended {I} i.
Arguments Finished {I}.

(** Promises whose call does nothing but append the promise to a log of
    invocations and return [res p]. *)
Definition logged (res : nat -> value) : nat -> list nat -> list nat * result value :=
  fun p log => (log ++ [p], Ok (res p)).

(** What one level of resolution makes of an element. *)
Definition resolve_once (res : nat -> value) (v : value) : value :=
  match v with
  | VPromise p => res p
  | _ => v
  end.

(** The promises among the elements of [l], in order. *)
Fixpoint promises_of (l : list value) : list nat :=
  match l with
  | [] => []
  | VPromise p :: l' => p :: promises_of l'
  | _ :: l' => promises_of l'
  end.

(** ** [regen] and [_regen] *)

Module Regen.
Section Elements.

Variable A : Type.

(** [__it] is a one-shot iterator, represented by the elements it has yet
    to produce; [__consumed] is the list object the wrapper appends to. *)
Record _regen : Type := Build_regen {
  __it : list A;
  __index : Z;
  __consumed : list A
}.

Definition __init__ (it : list A) : _regen :=
  {| __it := it; __index := 0; __consumed := [] |}.

(** [l[i]] on a builtin list, negative indices counting from the end. *)
Definition list_getitem (l : list A) (i : Z) : result A :=
  let n := Z.of_nat (length l) in
  let j := if i <? 0 then i + n else i in
  if (j <? 0) || (n <=? j) then Raise (IndexError None)
  else
    match nth_error l (Z.to_nat j) with
    | Some x => Ok x
    | None => Raise (IndexError None)
    end.

(** The [data] property: [self.__consumed.extend(list(self.__it))], then
    return the list. *)
Definition data (self : _regen) : list A * _regen :=
  let self' := {| __it := [];
                  __index := __index self;
                  __consumed := __consumed self ++ __it self |} in
  (__consumed self', self').

(** Number of iterations of [for i in range(start, stop)]. *)
Definition range_len (start stop : Z) : nat := Z.to_nat (stop - start).

(** [k] rounds of [self.__consumed.append(next(self.__it))]; [false] when
    [next] raised [StopIteration]. *)
Fixpoint pull (k : nat) (self : _regen) : bool * _regen :=
  match k with
  | O => (true, self)
  | S k' =>
      match __it self with
      | [] => (false, self)
      | x :: rest =>
          pull k' {| __it := rest;
                     __index := __index self;
                     __consumed := __consumed self ++ [x] |}
      end
  end.

Definition __getitem__ (self : _regen) (index : Z) : result A * _regen :=
  if index <? 0 then
    let '(d, self') := data self in (list_getitem d index, self')
  else
    match list_getitem (__consumed self) index with
    | Ok x => (Ok x, self)
    | Raise (IndexError _) =>
        match pull (range_len (__index self) (index + 1)) self with
        | (false, self') => (Raise (IndexError (Some index)), self')
        | (true, self') => (list_getitem (__consumed self') index, self')
        end
    | Raise e => (Raise e, self)
    end.

(** [itertools.chain(self.__consumed, self.__it)]: the object walks the
    list by position, then moves on to the iterator for good. *)
Inductive chain : Type :=
| chain_consumed (pos : nat)
| chain_it
| chain_done.

Definition chain_next (c : chain) (self : _regen) : step A * chain * _regen :=
  let from_it :=
    match __it self with
    | [] => (StopIteration, chain_done, self)
    | x :: rest =>
        (Yield x, chain_it,
         {| __it := rest;
            __index := __index self;
            __consumed := __consumed self |})
    end in
  match c with
  | chain_consumed pos =>
      match nth_error (__consumed self) pos with
      | Some x => (Yield x, chain_consumed (S pos), self)
      | None => from_it
      end
  | chain_it => from_it
  | chain_done => (StopIteration, chain_done, self)
  end.

#[export] Instance chain_iterator : Iterator chain _regen A := chain_next.

Definition __iter__ (self : _regen) : chain := chain_consumed 0.

(** What [regen] may be given: a list or a tuple (of a subclass or not),
    a one-shot iterator such as a generator, a sequence of another type
    ([str], [range], [bytes]), a collection that is no sequence ([set],
    [dict]), or a [_regen], whose class derives from [list]. *)
Inductive iterable : Type :=
| PyList (l : list A)
| PyTuple (l : list A)
| PyIterator (it : list A)
| PySequence (l : list A)
| PyCollection (l : list A)
| PyRegen (r : _regen).

(** [isinstance(it, (list, tuple))] *)
Definition isinstance_list_tuple (it : iterable) : bool :=
  match it with
  | PyList _ | PyTuple _ | PyRegen _ => true
  | PyIterator _ | PySequence _ | PyCollection _ => false
  end.

(** The object [_regen(it)] is: [__init__] keeps the iterable as it is
    given, whatever it is. *)
Record regen_object : Type := Build_regen_object {
  object_it : iterable;
  object_index : Z;
  object_consumed : list A
}.

Definition _regen_new (it : iterable) : regen_object :=
  {| object_it := it; object_index := 0; object_consumed := [] |}.

(** A wrapper whose source is a one-shot iterator, as the record [_regen]
    describes it. *)
Definition as_regen (o : regen_object) : option _regen :=
  match object_it o with
  | PyIterator src =>
      Some {| __it := src;
              __index := object_index o;
              __consumed := object_consumed o |}
  | _ => None
  end.

(** [regen] returns its argument or a new [_regen]. *)
Inductive regen_result : Type :=
| Unchanged (it : iterable)
| Wrapper (o : regen_object).

Definition regen (it : iterable) : regen_result :=
  if isinstance_list_tuple it then Unchanged it
  else Wrapper (_regen_new it).

(** The specification's "concrete, fixed-length sequence": a list, a tuple
    or a sequence of another type; not an iterator, not a set or a dict,
    and not a wrapper, whose length is not known before its source is
    exhausted. *)
Definition is_concrete_sequence (it : iterable) : bool :=
  match it with
  | PyList _ | PyTuple _ | PySequence _ => true
  | PyIterator _ | PyCollection _ | PyRegen _ => false
  end.

(** What pickle is told to call. *)
Inductive constructor : Type :=
| builtin_list.

(** [return list, (self.data,)] *)
Definition __reduce__ (self : _regen) : (constructor * list A) * _regen :=
  let '(d, self') := data self in ((builtin_list, d), self').

(** Unpickling calls the constructor on the arguments: [list(d)]. *)
Definition reconstruct (red : constructor * list A) : iterable :=
  match red with
  | (builtin_list, d) => PyList d
  end.

End Elements.

Arguments __it {A} _.
Arguments __index {A} _.
Arguments __consumed {A} _.
Arguments Build_regen {A} _ _ _.
Arguments __init__ {A} it.
Arguments list_getitem {A} l i.
Arguments data {A} self.
Arguments __reduce__ {A} self.
Arguments reconstruct {A} red.
Arguments pull {A} k self.
Arguments __getitem__ {A} self index.
Arguments chain_next {A} c self.
Arguments __iter__ {A} self.
Arguments PyList {A} l.
Arguments PyTuple {A} l.
Arguments PyIterator {A} it.
Arguments PySequence {A} l.
Arguments PyCollection {A} l.
Arguments PyRegen {A} r.
Arguments isinstance_list_tuple {A} it.
Arguments object_it {A} _.
Arguments object_index {A} _.
Arguments object_consumed {A} _.
Arguments Build_regen_object {A} _ _ _.
Arguments _regen_new {A} it.
Arguments as_regen {A} o.
Arguments Unchanged {A} it.
Arguments Wrapper {A} o.
Arguments regen {A} it.
Arguments is_concrete_sequence {A} it.

End Regen.

Import Regen.

(** ** Reachable states of a wrapper *)

Section Reachability.

Variable W : Type.
Variable call : nat -> W -> W * result value.

(** The operations a caller has on a wrapper. *)
Inductive operation : Type :=
| op_iterate
| op_index (i : Z)
| op_materialize
| op_first (predicate : option (value -> bool)).

Definition perform (fuel : nat) (o : operation) (s : Regen._regen value * W)
  : option (Regen._regen value * W) :=
  let '(r, w) := s in
  match o with
  | op_iterate =>
      match list_ fuel (Regen.__iter__ r) r with
      | Some (_, _, r') => Some (r', w)
      | None => None
      end
  | op_index i => Some (snd (Regen.__getitem__ r i), w)
  | op_materialize => Some (snd (Regen.data r), w)
  | op_first predicate =>
      match first W call fuel predicate (Regen.__iter__ r) (r, w) with
      | Some (_, s') => Some s'
      | None => None
      end
  end.

(** States of a wrapper built around a source that produces [es]. *)
Inductive reachable (es : list value) : Regen._regen value * W -> Prop :=
| reachable_init (w : W) : reachable es (Regen.__init__ es, w)
| reachable_perform (fuel : nat) (o : operation) (s s' : Regen._regen value * W) :
    reachable es s -> perform fuel o s = Some s' -> reachable es s'.

End Reachability.

(** The cache holds, in order, the first [cursor] elements the source
    produced. *)
Definition cache_invariant {A : Type} (es : list A) (cursor : nat)
  (r : Regen._regen A) : Prop :=
  firstn cursor (Regen.__consumed r) = firstn cursor es.

(** How many elements have been pulled from a source that started as [es]. *)
Definition pulled {A : Type} (es : list A) (r : Regen._regen A) : nat :=
  (length es - length (Regen.__it r))%nat.

(** The example of the specification: the predicate [lambda x: x > 3]
    and a generator yielding 1 to 6. *)
Definition gt3 (v : value) : bool :=
  match v with
  | VInt n => 3 <? n
  | _ => false
  end.

Definition one_to_six : list value :=
  [VInt 1; VInt 2; VInt 3; VInt 4; VInt 5; VInt 6].

(** ** Further functions of the module *)

(** Exceptions other than [IndexError] are told apart by the name of
    their class. *)
Definition ValueError : exn := Exception "ValueError".

(** *** [chunks] *)

Section Chunks.

Variable A : Type.

(** [sys.maxsize] *)
Variable maxsize : Z.

(** [list(islice(it, stop))]: [islice] refuses a [stop] that is negative
    or above [sys.maxsize], and otherwise takes the next [stop] elements of
    [it], or what is left. *)
Definition list_islice (it : list A) (stop : Z) : result (list A) * list A :=
  if (stop <? 0) || (maxsize <? stop) then (Raise ValueError, it)
  else (Ok (firstn (Z.to_nat stop) it), skipn (Z.to_nat stop) it).

(** The generator [chunks(it, n)], where [it] is a one-shot iterator
    represented by the elements it has yet to produce. *)
Definition chunks (n : Z) : @generator Z := Suspended n.

Definition chunks_next (g : @generator Z) (it : list A)
  : step (list A) * @generator Z * list A :=
  match g with
  | Finished => (StopIteration, Finished, it)
  | Suspended n =>
      match it with
      | [] => (StopIteration, Finished, [])
      | first :: rest =>
          match list_islice rest (n - 1) with
          | (Ok l, rest') => (Yield (first :: l), Suspended n, rest')
          | (Raise e, rest') => (Throw e, Finished, rest')
          end
      end
  end.

#[export] Instance chunks_iterator : Iterator (@generator Z) (list A) (list A) :=
  chunks_next.

End Chunks.

Arguments list_islice {A} maxsize it stop.
Arguments chunks_next {A} maxsize g it.

(** *** [padlist] *)

Definition OverflowError : exn := Exception "OverflowError".
Definition MemoryError : exn := Exception "MemoryError".

Section Padlist.

Variable A : Type.

(** [sys.maxsize], and the length of the longest list the interpreter
    can allocate. *)
Variable maxsize : Z.
Variable capacity : Z.

(** [l[:stop]], a negative [stop] counting from the end; the bounds of a
    slice are clipped, whatever their size. *)
Definition slice_to (l : list A) (stop : Z) : list A :=
  if stop <? 0 then firstn (Z.to_nat (Z.of_nat (length l) + stop)) l
  else firstn (Z.to_nat stop) l.

(** [[x] * k]: [k] has to fit an index-sized integer; the list is empty
    when [k] is not positive, and has to be allocated otherwise. *)
Definition list_mul (x : A) (k : Z) : result (list A) :=
  if (k <? - maxsize - 1) || (maxsize <? k) then Raise OverflowError
  else if capacity <? k then Raise MemoryError
  else Ok (repeat x (Z.to_nat k)).

(** [l1 + l2], which allocates the sum. *)
Definition list_add (l1 l2 : list A) : result (list A) :=
  if capacity <? Z.of_nat (length l1 + length l2) then Raise MemoryError
  else Ok (l1 ++ l2).

Definition padlist (container : list A) (size : Z) (default : A)
  : result (list A) :=
  let head := slice_to container size in
  match list_mul default (size - Z.of_nat (length container)) with
  | Ok pad => list_add head pad
  | Raise e => Raise e
  end.

End Padlist.

Arguments slice_to {A} l stop.
Arguments list_mul {A} maxsize capacity x k.
Arguments list_add {A} capacity l1 l2.
Arguments padlist {A} maxsize capacity container size default.

(** *** [uniq] *)

Section Uniq.

Variable A : Type.

(** Equality of the (hashable) elements. *)
Variable eq_dec : forall x y : A, {x = y} + {x <> y}.

(** One [next] of the generator expression: skip what is in [seen], add
    the first new object to [seen] and yield it. *)
Fixpoint uniq_pull (seen : ListSet.set A) (it : list A)
  : step A * ListSet.set A * list A :=
  match it with
  | [] => (StopIteration, seen, [])
  | obj :: rest =>
      if ListSet.set_mem eq_dec obj seen then uniq_pull seen rest
      else (Yield obj, ListSet.set_add eq_dec obj seen, rest)
  end.

(** [uniq(it)]: the generator starts with [seen = set()]. *)
Definition uniq : @generator (ListSet.set A) := Suspended (ListSet.empty_set A).

Definition uniq_next (g : @generator (ListSet.set A)) (it : list A)
  : step A * @generator (ListSet.set A) * list A :=
  match g with
  | Finished => (StopIteration, Finished, it)
  | Suspended seen =>
      match uniq_pull seen it with
      | (Yield obj, seen', it') => (Yield obj, Suspended seen', it')
      | (StopIteration, _, it') => (StopIteration, Finished, it')
      | (Throw e, _, it') => (Throw e, Finished, it')
      end
  end.

(** The elements of [l] in the order in which they first appear: the
    head, then the rest without it. *)
Fixpoint first_occurrences (l : list A) : list A :=
  match l with
  | [] => []
  | x :: l' => x :: remove eq_dec x (first_occurrences l')
  end.

#[export] Instance uniq_iterator : Iterator (@generator (ListSet.set A)) (list A) A :=
  uniq_next.

End Uniq.

Arguments uniq {A}.

(** *** Wrappers that are indexed and materialized, never iterated *)

Inductive access : Type :=
| get (index : Z)
| read_data.

Definition do_access {A : Type} (r : _regen A) (a : access) : _regen A :=
  match a with
  | get index => snd (__getitem__ r index)
  | read_data => snd (data r)
  end.

(** The wrapper after the accesses [l], made in order. *)
Definition after_accesses {A : Type} (r : _regen A) (l : list access) : _regen A :=
  fold_left do_access l r.

(** *** Elements that are promises *)

(** [isinstance(value, promise)] *)
Definition is_promise (v : value) : bool :=
  match v with
  | VPromise _ => true
  | _ => false
  end.

(** An element that is no promise and that [first] passes over. *)
Definition passed_over (predicate : option (value -> bool)) (v : value) : bool :=
  negb (is_promise v) && negb (matches predicate v).

(** What [first] returns for a sequence without promises. *)
Definition first_match (predicate : option (value -> bool)) (l : list value) : value :=
  match find (matches predicate) l with
  | Some v => v
  | None => VNone
  end.

(** Promises for the examples: none is ever called, or promise 0 raises
    and the others return their number, each call counted. *)
Definition no_call : nat -> unit -> unit * result value :=
  fun _ w => (w, Ok VNone).

Definition call_0_raises : nat -> nat -> nat * result value :=
  fun p n =>
    (S n, if Nat.eqb p 0 then Raise (Exception "boom") else Ok (VInt (Z.of_nat p))).

(** *** [firstmethod] *)

Definition AttributeError : exn := Exception "AttributeError".

(** [except AttributeError] *)
Definition is_AttributeError (e : exn) : bool :=
  match e with
  | Exception cls => String.eqb cls "AttributeError"
  | IndexError _ => false
  end.

Section Firstmethod.

Variables W O M : Type.

(** [getattr(maybe_evaluate(obj), method)]; [maybe_evaluate] is kombu's
    and may run a lazy object. *)
Variable get_method : O -> W -> W * result M.

(** The call of the method on the arguments given to the matcher, made
    through [on_call] when there is one and directly otherwise. *)
Variable invoke : M -> W -> W * result value.

(** The function [firstmethod] returns; falling off the loop returns
    [None]. *)
Fixpoint _matcher (it : list O) (w : W) : W * result value :=
  match it with
  | [] => (w, Ok VNone)
  | obj :: rest =>
      match get_method obj w with
      | (w1, Raise e) =>
          if is_AttributeError e then _matcher rest w1 else (w1, Raise e)
      | (w1, Ok meth) =>
          match invoke meth w1 with
          | (w2, Raise e) =>
              if is_AttributeError e then _matcher rest w2 else (w2, Raise e)
          | (w2, Ok reply) =>
              if is_none reply then _matcher rest w2 else (w2, Ok reply)
          end
      end
  end.

End Firstmethod.

(** Objects for which the method is missing, returns a value or raises;
    a call of the method is recorded under the name of its object. *)
Inductive behaviour : Type :=
| lacks_method
| replies (v : value)
| raises (e : exn).

Record object : Type := Build_object { name : nat; on_method : behaviour }.

Definition recorded_get (o : object) (log : list nat) : list nat * result object :=
  (log, match on_method o with
        | lacks_method => Raise AttributeError
        | _ => Ok o
        end).

Definition recorded_invoke (o : object) (log : list nat) : list nat * result value :=
  (log ++ [name o],
   match on_method o with
   | replies v => Ok v
   | raises e => Raise e
   | lacks_method => Raise AttributeError
   end).

(** The objects the matcher passes over: no such method, a method that
    raises [AttributeError], or a reply that is [None]. *)
Definition skipped (o : object) : bool :=
  match on_method o with
  | lacks_method => true
  | replies v => is_none v
  | raises e => is_AttributeError e
  end.

(** What an object that is not passed over makes the matcher do. *)
Definition final (o : object) : result value :=
  match on_method o with
  | replies v => Ok v
  | raises e => Raise e
  | lacks_method => Ok VNone
  end.

(** The objects of [l] whose method is called, by name. *)
Fixpoint called (l : list object) : list nat :=
  match l with
  | [] => []
  | o :: l' =>
      match on_method o with
      | lacks_method => called l'
      | _ => name o :: called l'
      end
  end.

(** *** A computation that raises whenever it is called *)

Definition always_failing : nat -> nat * result value :=
  fun n => (S n, Raise (Exception "boom")).

Definition is_raise {A : Type} (r : result A) : bool :=
  match r with
  | Raise _ => true
  | Ok _ => false
  end.

(** * Properties *)

(** ** [mlazy] *)

Section MlazyCache.

Import Mlazy.

Variable W : Type.
Variable super_evaluate : W -> W * result value.

Lemma evaluate_cached (self : mlazy) (w : W) :
  evaluated self = true ->
  evaluate W super_evaluate self w = (w, self, Ok (_value self)).
Proof. intros E. unfold evaluate. now rewrite E. Qed.

Lemma evaluate_times_cached (k : nat) (self : mlazy) (w : W) :
  evaluated self = true ->
  evaluate_times W super_evaluate k self w
  = (w, self, repeat (Ok (_value self)) k).
Proof.
  intros E. induction k as [|k IH]; simpl.
  - reflexivity.
  - rewrite (evaluate_cached self w E), IH. reflexivity.
Qed.

End MlazyCache.

Section MlazyFacts.

Import Mlazy.

Variable W : Type.
Variable super_evaluate : W -> W * result value.

Lemma counting_eq (n : nat) (w w' : W) (r : result value) :
  super_evaluate w = (w', r) ->
  counting super_evaluate (n, w) = ((S n, w'), r).
Proof. intros E. unfold counting. now rewrite E. Qed.

(** C5.  When the computation fails on its first attempt and returns [v]
    on its second, the first [evaluate()] raises and leaves the object as
    it was, unevaluated and with no value; the second [evaluate()] runs the
    computation again (its second invocation), returns [v] and only then
    sets the flag. *)
Theorem mlazy_retries_after_failure (w0 w1 w2 : W) (e : exn) (v : value) :
  super_evaluate w0 = (w1, Raise e) ->
  super_evaluate w1 = (w2, Ok v) ->
  evaluate _ (counting super_evaluate) fresh (0%nat, w0)
    = ((1%nat, w1), fresh, Raise e)
  /\ evaluated fresh = false
  /\ _value fresh = VNone
  /\ evaluate _ (counting super_evaluate) fresh (1%nat, w1)
    = ((2%nat, w2), {| evaluated := true; _value := v |}, Ok v).
Proof.
  intros E0 E1. unfold evaluate. simpl negb. cbv iota.
  rewrite (counting_eq 0 _ _ _ E0), (counting_eq 1 _ _ _ E1).
  repeat split.
Qed.

(** C6.  After one successful evaluation, any number [k] of further
    [evaluate()] calls return the cached value and do not run the
    computation: its invocation counter stays at 1 and the state it acts
    on is not touched. *)
Theorem mlazy_computes_once (k : nat) (w0 w1 : W) (v : value) :
  super_evaluate w0 = (w1, Ok v) ->
  let m1 := {| evaluated := true; _value := v |} in
  evaluate _ (counting super_evaluate) fresh (0%nat, w0)
    = ((1%nat, w1), m1, Ok v)
  /\ evaluate_times _ (counting super_evaluate) k m1 (1%nat, w1)
    = ((1%nat, w1), m1, repeat (Ok v) k).
Proof.
  intros E0 m1. split.
  - unfold evaluate. simpl negb. cbv iota.
    now rewrite (counting_eq 0 _ _ _ E0).
  - now apply (evaluate_times_cached _ (counting super_evaluate) k m1).
Qed.

End MlazyFacts.

Lemma mlazy_retries_after_failure_witness :
  Mlazy.flaky (VInt 42) 0%nat = (1%nat, Raise (Exception "boom"))
  /\ Mlazy.flaky (VInt 42) 1%nat = (2%nat, Ok (VInt 42))
  /\ Mlazy.evaluate _ (Mlazy.counting (Mlazy.flaky (VInt 42))) Mlazy.fresh (0%nat, 0%nat)
    = ((1%nat, 1%nat), Mlazy.fresh, Raise (Exception "boom"))
  /\ Mlazy.evaluated Mlazy.fresh = false
  /\ Mlazy._value Mlazy.fresh = VNone
  /\ Mlazy.evaluate _ (Mlazy.counting (Mlazy.flaky (VInt 42))) Mlazy.fresh (1%nat, 1%nat)
    = ((2%nat, 2%nat), Mlazy.Build_mlazy true (VInt 42), Ok (VInt 42)).
Proof.
  split; [reflexivity|]. split; [reflexivity|].
  apply (mlazy_retries_after_failure nat (Mlazy.flaky (VInt 42)) 0%nat 1%nat 2%nat
           (Exception "boom") (VInt 42)); reflexivity.
Defined.

Lemma mlazy_computes_once_witness :
  Mlazy.flaky (VInt 42) 1%nat = (2%nat, Ok (VInt 42))
  /\ Mlazy.evaluate _ (Mlazy.counting (Mlazy.flaky (VInt 42))) Mlazy.fresh (0%nat, 1%nat)
    = ((1%nat, 2%nat), Mlazy.Build_mlazy true (VInt 42), Ok (VInt 42))
  /\ Mlazy.evaluate_times _ (Mlazy.counting (Mlazy.flaky (VInt 42))) 3
       (Mlazy.Build_mlazy true (VInt 42)) (1%nat, 2%nat)
    = ((1%nat, 2%nat), Mlazy.Build_mlazy true (VInt 42),
       [Ok (VInt 42); Ok (VInt 42); Ok (VInt 42)]).
Proof.
  split; [reflexivity|].
  apply (mlazy_computes_once nat (Mlazy.flaky (VInt 42)) 3 1%nat 2%nat (VInt 42)).
  reflexivity.
Defined.

(** ** Indexing a builtin list *)

Section ListIndexing.

Variable A : Type.

Lemma list_getitem_nonneg (l : list A) (i : Z) :
  0 <= i ->
  list_getitem l i =
  match nth_error l (Z.to_nat i) with
  | Some x => Ok x
  | None => Raise (IndexError None)
  end.
Proof.
  intros Hi. unfold list_getitem.
  destruct (Z.ltb_spec i 0) as [Hneg|_]; [lia|].
  destruct (Z.ltb_spec i 0) as [Hneg|_]; [lia|]. simpl orb.
  destruct (Z.leb_spec (Z.of_nat (length l)) i) as [Hout|Hin]; [|reflexivity].
  assert (E : nth_error l (Z.to_nat i) = None) by (apply nth_error_None; lia).
  now rewrite E.
Qed.

Lemma list_getitem_negative (l : list A) (i : Z) :
  i < 0 ->
  list_getitem l i =
  match nth_error (rev l) (Z.to_nat (- i - 1)) with
  | Some x => Ok x
  | None => Raise (IndexError None)
  end.
Proof.
  intros Hi. unfold list_getitem.
  destruct (Z.ltb_spec i 0) as [_|Hpos]; [|lia].
  rewrite nth_error_rev.
  destruct (Z.ltb_spec (i + Z.of_nat (length l)) 0) as [Hlow|Hok]; simpl orb.
  - destruct (Nat.ltb_spec (Z.to_nat (- i - 1)) (length l)) as [Hlt|_];
      [lia|reflexivity].
  - destruct (Z.leb_spec (Z.of_nat (length l)) (i + Z.of_nat (length l)))
      as [Hbad|_]; [lia|].
    destruct (Nat.ltb_spec (Z.to_nat (- i - 1)) (length l)) as [_|Hge]; [|lia].
    replace (length l - S (Z.to_nat (- i - 1)))%nat
      with (Z.to_nat (i + Z.of_nat (length l))) by lia.
    reflexivity.
Qed.

Lemma list_getitem_last (l : list A) (x : A) :
  list_getitem (l ++ [x]) (-1) = Ok x.
Proof.
  rewrite list_getitem_negative by lia.
  rewrite rev_unit. reflexivity.
Qed.

End ListIndexing.

(** ** The wrapper's own operations *)

Section RegenFacts.

Variable A : Type.

Lemma pull_spec (k : nat) (r : _regen A) :
  pull k r =
  if (k <=? length (__it r))%nat
  then (true, {| __it := skipn k (__it r);
                 __index := __index r;
                 __consumed := __consumed r ++ firstn k (__it r) |})
  else (false, {| __it := [];
                  __index := __index r;
                  __consumed := __consumed r ++ __it r |}).
Proof.
  revert r. induction k as [|k IH]; intros [it idx cs]; simpl.
  - now rewrite app_nil_r.
  - destruct it as [|x rest]; simpl.
    + now rewrite app_nil_r.
    + rewrite IH. simpl.
      destruct (Nat.leb_spec k (length rest)); now rewrite <- app_assoc.
Qed.

(** An index below the length of the cache is served from the cache; the
    wrapper and its source are left alone. *)
Lemma getitem_cached (r : _regen A) (i : Z) (x : A) :
  0 <= i ->
  nth_error (__consumed r) (Z.to_nat i) = Some x ->
  __getitem__ r i = (Ok x, r).
Proof.
  intros Hi Hx. unfold __getitem__.
  destruct (Z.ltb_spec i 0) as [Hneg|_]; [lia|].
  rewrite list_getitem_nonneg by assumption. now rewrite Hx.
Qed.

(** The first indexing of a new wrapper. *)
Lemma getitem_fresh (es : list A) (i : Z) :
  0 <= i ->
  __getitem__ (__init__ es) i =
  match nth_error es (Z.to_nat i) with
  | Some x => (Ok x, {| __it := skipn (S (Z.to_nat i)) es;
                        __index := 0;
                        __consumed := firstn (S (Z.to_nat i)) es |})
  | None => (Raise (IndexError (Some i)),
             {| __it := []; __index := 0; __consumed := es |})
  end.
Proof.
  intros Hi. unfold __getitem__.
  destruct (Z.ltb_spec i 0) as [Hneg|_]; [lia|].
  rewrite list_getitem_nonneg by assumption. simpl __consumed.
  replace (nth_error [] (Z.to_nat i)) with (@None A) by now destruct (Z.to_nat i).
  rewrite pull_spec. unfold range_len, __init__.
  cbn [__it __index __consumed app].
  replace (Z.to_nat (i + 1 - 0)) with (S (Z.to_nat i)) by lia.
  destruct (nth_error es (Z.to_nat i)) as [x|] eqn:Hx.
  - assert (Hlt : (Z.to_nat i < length es)%nat)
      by (apply nth_error_Some; congruence).
    destruct (Nat.leb_spec (S (Z.to_nat i)) (length es)) as [_|Hbad]; [|lia].
    rewrite list_getitem_nonneg by assumption.
    cbn [__consumed]. rewrite nth_error_firstn.
    destruct (Nat.ltb_spec (Z.to_nat i) (S (Z.to_nat i))) as [_|Hbad]; [|lia].
    now rewrite Hx.
  - apply nth_error_None in Hx.
    destruct (Nat.leb_spec (S (Z.to_nat i)) (length es)) as [Hbad|_]; [lia|].
    reflexivity.
Qed.

(** Once the source is exhausted the wrapper indexes like the list it
    holds. *)
Lemma getitem_drained (r : _regen A) (j : Z) :
  __it r = [] -> __index r = 0 -> 0 <= j ->
  __getitem__ r j =
  (match nth_error (__consumed r) (Z.to_nat j) with
   | Some x => Ok x
   | None => Raise (IndexError (Some j))
   end, r).
Proof.
  intros Hit Hidx Hj. unfold __getitem__.
  destruct (Z.ltb_spec j 0) as [Hneg|_]; [lia|].
  rewrite list_getitem_nonneg by assumption.
  destruct (nth_error (__consumed r) (Z.to_nat j)) as [x|]; [reflexivity|].
  rewrite pull_spec, Hit, Hidx. unfold range_len.
  replace (Z.to_nat (j + 1 - 0)) with (S (Z.to_nat j)) by lia.
  simpl. rewrite app_nil_r. destruct r as [it idx cs]; simpl in *.
  now subst.
Qed.

Lemma next_chain (c : chain) (r : _regen A) : next c r = chain_next c r.
Proof. reflexivity. Qed.

(** [list(chain(...))] once the chain has moved on to the source. *)
Lemma list_chain_it (fuel : nat) (r : _regen A) :
  (length (__it r) < fuel)%nat ->
  list_ fuel chain_it r =
  Some (Ok (__it r), chain_done,
        {| __it := []; __index := __index r; __consumed := __consumed r |}).
Proof.
  revert r. induction fuel as [|fuel IH]; intros [it idx cs] Hf; [simpl in Hf; lia|].
  cbn [list_]. rewrite next_chain. unfold chain_next. cbn [__it __index __consumed].
  destruct it as [|x rest]; [reflexivity|].
  rewrite IH by (simpl in *; lia). reflexivity.
Qed.

(** [list(chain(...))] from position [pos] of the cache. *)
Lemma list_chain_consumed (fuel pos : nat) (r : _regen A) :
  (length (__consumed r) - pos + length (__it r) < fuel)%nat ->
  list_ fuel (chain_consumed pos) r =
  Some (Ok (skipn pos (__consumed r) ++ __it r), chain_done,
        {| __it := []; __index := __index r; __consumed := __consumed r |}).
Proof.
  revert pos r. induction fuel as [|fuel IH]; intros pos r Hf; [lia|].
  cbn [list_]. rewrite next_chain. unfold chain_next.
  destruct (nth_error (__consumed r) pos) as [x|] eqn:Hx.
  - assert (Hlt : (pos < length (__consumed r))%nat)
      by (apply nth_error_Some; congruence).
    rewrite IH by lia.
    destruct (nth_error_split _ _ Hx) as (l1 & l2 & Hcs & Hlen).
    rewrite Hcs. subst pos.
    rewrite !skipn_app, !skipn_all2 by lia.
    replace (S (length l1) - length l1)%nat with 1%nat by lia.
    replace (length l1 - length l1)%nat with 0%nat by lia.
    rewrite skipn_all. reflexivity.
  - apply nth_error_None in Hx. rewrite skipn_all2 by assumption. simpl app.
    destruct r as [it idx cs]. cbn [__it __index __consumed] in *.
    destruct it as [|y rest]; [reflexivity|].
    rewrite (list_chain_it fuel (Build_regen rest idx cs)) by (simpl in *; lia).
    reflexivity.
Qed.

End RegenFacts.

(** ** Traversals and the cache *)

Section RegenClaims.

Variable A : Type.

(** What any first traversal of a new wrapper does: it yields the whole
    source and leaves the cache empty. *)
Lemma iterate_fresh (es : list A) (fuel : nat) :
  (length es < fuel)%nat ->
  list_ fuel (__iter__ (__init__ es)) (__init__ es) =
  Some (Ok es, chain_done, {| __it := []; __index := 0; __consumed := [] |}).
Proof.
  intros Hf. unfold __iter__.
  rewrite list_chain_consumed by (simpl; lia). reflexivity.
Qed.

(** A traversal caches nothing, so the next one has nothing to yield. *)
Lemma iterate_after_iterate (es : list A) (fuel : nat) :
  (length es < fuel)%nat ->
  exists r1,
    list_ fuel (__iter__ (__init__ es)) (__init__ es) = Some (Ok es, chain_done, r1)
    /\ list_ fuel (__iter__ r1) r1 = Some (Ok [], chain_done, r1).
Proof.
  intros Hf. eexists. split; [now apply iterate_fresh|].
  unfold __iter__. rewrite list_chain_consumed by (simpl; lia). reflexivity.
Qed.

Lemma getitem_keeps_stream (r : _regen A) (i : Z) :
  __consumed (snd (__getitem__ r i)) ++ __it (snd (__getitem__ r i))
  = __consumed r ++ __it r.
Proof.
  unfold __getitem__.
  destruct (i <? 0).
  - simpl. now rewrite app_nil_r.
  - destruct (list_getitem (__consumed r) i) as [x|[arg|msg]]; [reflexivity| |reflexivity].
    rewrite pull_spec.
    destruct (_ <=? _)%nat; cbn [snd __it __consumed].
    + now rewrite <- app_assoc, firstn_skipn.
    + now rewrite app_nil_r.
Qed.

Lemma data_keeps_stream (r : _regen A) :
  __consumed (snd (data r)) ++ __it (snd (data r)) = __consumed r ++ __it r.
Proof. simpl. now rewrite app_nil_r. Qed.

(** A miss in the cache pulls [index + 1] elements, however many the
    cache already holds. *)
Lemma getitem_miss (r : _regen A) (i : Z) :
  __index r = 0 -> 0 <= i -> (length (__consumed r) <= Z.to_nat i)%nat ->
  __getitem__ r i =
  if (S (Z.to_nat i) <=? length (__it r))%nat
  then (list_getitem (__consumed r ++ firstn (S (Z.to_nat i)) (__it r)) i,
        {| __it := skipn (S (Z.to_nat i)) (__it r);
           __index := 0;
           __consumed := __consumed r ++ firstn (S (Z.to_nat i)) (__it r) |})
  else (Raise (IndexError (Some i)),
        {| __it := []; __index := 0; __consumed := __consumed r ++ __it r |}).
Proof.
  intros Hidx Hi Hlen. unfold __getitem__.
  destruct (Z.ltb_spec i 0) as [Hneg|_]; [lia|].
  rewrite list_getitem_nonneg by assumption.
  apply nth_error_None in Hlen. rewrite Hlen.
  rewrite pull_spec, Hidx. unfold range_len.
  replace (Z.to_nat (i + 1 - 0)) with (S (Z.to_nat i)) by lia.
  now destruct (_ <=? _)%nat.
Qed.

(** C7.  On a new wrapper a negative index drains the whole source into
    the cache and indexes the resulting list from its end; [-1] gives the
    last element.  The wrapper that is left has an exhausted source and
    answers indexing, iteration and [data] like the list of all [n]
    elements, without changing any more. *)
Theorem getitem_negative_materializes (es : list A) (i : Z) :
  i < 0 ->
  let r' := {| __it := []; __index := 0; __consumed := es |} in
  __getitem__ (__init__ es) i =
    (match nth_error (rev es) (Z.to_nat (- i - 1)) with
     | Some x => Ok x
     | None => Raise (IndexError None)
     end, r')
  /\ (i = -1 -> forall es' x, es = es' ++ [x] ->
      __getitem__ (__init__ es) i = (Ok x, r'))
  /\ (forall j, 0 <= j ->
      __getitem__ r' j =
        (match nth_error es (Z.to_nat j) with
         | Some x => Ok x
         | None => Raise (IndexError (Some j))
         end, r'))
  /\ (forall j, j < 0 -> __getitem__ r' j = (list_getitem es j, r'))
  /\ (forall fuel, (length es < fuel)%nat ->
      list_ fuel (__iter__ r') r' = Some (Ok es, chain_done, r'))
  /\ data r' = (es, r').
Proof.
  intros Hi r'.
  assert (Hneg : __getitem__ (__init__ es) i = (list_getitem es i, r')).
  { unfold __getitem__. destruct (Z.ltb_spec i 0) as [_|Hpos]; [|lia].
    reflexivity. }
  repeat split.
  - rewrite Hneg. now rewrite list_getitem_negative.
  - intros -> es' x ->. rewrite Hneg. now rewrite list_getitem_last.
  - intros j Hj. now rewrite getitem_drained.
  - intros j Hj. unfold __getitem__.
    destruct (Z.ltb_spec j 0) as [_|Hpos]; [|lia].
    unfold data, r'. cbn [__it __index __consumed]. now rewrite app_nil_r.
  - intros fuel Hf. unfold __iter__.
    rewrite list_chain_consumed by (simpl; lia).
    simpl. now rewrite app_nil_r.
  - unfold data, r'. cbn [__it __index __consumed]. now rewrite app_nil_r.
Qed.

(** C8, as amended.  [regen] hands its argument back as it is exactly
    when it is an instance of [list] or [tuple], which a [_regen] is too:
    a wrapper is passed through, and nothing is pulled from its source.
    Every other iterable, a sequence of another type such as a [str] or a
    [range] included, is put in a new wrapper with an empty cache, index 0
    and the iterable itself as source; around a one-shot iterator this is
    the wrapper [__init__] describes. *)
Theorem regen_passes_lists_and_tuples_through (it : iterable A) :
  (regen it = Unchanged it <-> isinstance_list_tuple it = true)
  /\ match it with
     | PyList _ | PyTuple _ | PyRegen _ => regen it = Unchanged it
     | PyIterator _ | PySequence _ | PyCollection _ =>
         regen it = Wrapper {| object_it := it;
                               object_index := 0;
                               object_consumed := [] |}
     end
  /\ forall src : list A,
       as_regen (_regen_new (PyIterator src)) = Some (__init__ src).
Proof.
  split; [|split; [|reflexivity]].
  - destruct it; unfold regen; simpl; split; intros E;
      try reflexivity; discriminate E.
  - destruct it; reflexivity.
Qed.

(** C9.  [__reduce__] drains the source by itself and tells pickle to
    build a plain list from the resulting buffer: what is rebuilt is the
    list of the cached elements followed by everything the source still
    had, which is the cache the wrapper holds afterwards (for a new wrapper,
    all the elements of the source). *)
Theorem reduce_materializes (r : _regen A) (es : list A) :
  __reduce__ r =
    ((builtin_list, __consumed r ++ __it r),
     {| __it := []; __index := __index r; __consumed := __consumed r ++ __it r |})
  /\ reconstruct (fst (__reduce__ r)) = PyList (__consumed (snd (__reduce__ r)))
  /\ __it (snd (__reduce__ r)) = []
  /\ reconstruct (fst (__reduce__ (__init__ es))) = PyList es.
Proof. repeat split. Qed.

End RegenClaims.

(** C8, as the specification states it, fails on a sequence that is
    neither a list nor a tuple: the three-element sequence of a [range]
    or a [str] is concrete and of fixed length, and [regen] wraps it. *)
Lemma regen_wraps_a_concrete_sequence :
  is_concrete_sequence (PySequence [0; 1; 2]) = true
  /\ regen (PySequence [0; 1; 2])
     = Wrapper {| object_it := PySequence [0; 1; 2];
                  object_index := 0;
                  object_consumed := [] |}
  /\ ~ (forall it : iterable Z,
         regen it = Unchanged it <-> is_concrete_sequence it = true).
Proof.
  split; [reflexivity|]. split; [reflexivity|].
  intros H. destruct (H (PySequence [0; 1; 2])) as [_ H2].
  specialize (H2 eq_refl). discriminate H2.
Qed.

Lemma getitem_negative_materializes_witness :
  -1 < 0
  /\ __getitem__ (__init__ [1; 2; 3]) (-1)
     = (Ok 3, {| __it := []; __index := 0; __consumed := [1; 2; 3] |}).
Proof.
  split; [lia|].
  apply (getitem_negative_materializes Z [1; 2; 3] (-1)). lia.
Defined.

(** ** Where traversal and indexing leave the cache behind *)

(** C1.  A wrapper around a generator of 1, 2, 3 is traversed twice
    through [iter(r)], as a [for] loop or a comprehension does: the first
    traversal yields 1, 2, 3 and caches nothing, so the second one, which
    finds an empty cache and an exhausted source, yields nothing.  (The
    builtin [list] applied to the wrapper itself also asks for its length,
    which reads [data]; that call is not a traversal of [iter(r)] alone.) *)
Theorem regen_second_traversal_is_empty :
  let r0 := __init__ [1; 2; 3] in
  let r1 := {| __it := []; __index := 0; __consumed := [] |} in
  list_ 4 (__iter__ r0) r0 = Some (Ok [1; 2; 3], chain_done, r1)
  /\ list_ 4 (__iter__ r1) r1 = Some (Ok [], chain_done, r1).
Proof. split; reflexivity. Qed.

(** C2.  From a new wrapper around a generator of 1 to 6, [first] with
    [x > 3] followed by [r[0]] reaches a state whose cache is [[5]] after
    five pulls: whatever positive cursor is chosen, the cached elements are
    not the first elements the source produced. *)
Theorem cache_invariant_broken_after_first :
  let call := fun (_ : nat) (w : unit) => (w, Ok VNone) in
  let r := {| __it := [VInt 6]; __index := 0; __consumed := [VInt 5] |} in
  reachable unit call one_to_six (r, tt)
  /\ pulled one_to_six r = 5%nat
  /\ forall cursor : nat, (0 < cursor)%nat -> ~ cache_invariant one_to_six cursor r.
Proof.
  intros call r. split; [|split].
  - apply (reachable_perform unit call one_to_six 0 (op_index 0)
             ({| __it := [VInt 5; VInt 6]; __index := 0; __consumed := [] |}, tt));
      [|reflexivity].
    apply (reachable_perform unit call one_to_six 4 (op_first (Some gt3))
             (__init__ one_to_six, tt)); [|reflexivity].
    apply reachable_init.
  - reflexivity.
  - intros [|c] Hc; [lia|]. unfold cache_invariant. simpl. discriminate.
Qed.

(** C3.  A wrapper around a generator of 10, 20, 30 is asked for [r[0]]
    and then for [r[2]]: the second call finds one element cached, pulls
    three more times all the same, runs the source dry and raises
    [IndexError(2)], although the source has three elements; asked again,
    it returns 30. *)
Theorem getitem_raises_below_length :
  let r0 := __init__ [10; 20; 30] in
  let r1 := {| __it := [20; 30]; __index := 0; __consumed := [10] |} in
  let r2 := {| __it := []; __index := 0; __consumed := [10; 20; 30] |} in
  __getitem__ r0 0 = (Ok 10, r1)
  /\ __getitem__ r1 2 = (Raise (IndexError (Some 2)), r2)
  /\ __getitem__ r2 2 = (Ok 30, r2).
Proof. repeat split. Qed.

(** ** [first] over a wrapper *)

(** C4.  [first] with [x > 3] over a new wrapper around a generator of 1
    to 6 returns 4 and stops there: 5 and 6 are still in the source.  A
    following [data] pulls them and returns the list of 5 and 6, which the
    wrapper then serves from its cache. *)
Theorem first_short_circuits_then_materialize
  (W : Type) (call : nat -> W -> W * result value) (w : W) (extra : nat) :
  let r0 := __init__ one_to_six in
  let r1 := {| __it := [VInt 5; VInt 6]; __index := 0; __consumed := [] |} in
  let r2 := {| __it := []; __index := 0; __consumed := [VInt 5; VInt 6] |} in
  first W call (4 + extra) (Some gt3) (__iter__ r0) (r0, w)
    = Some (Ok (VInt 4), (r1, w))
  /\ data r1 = ([VInt 5; VInt 6], r2)
  /\ __getitem__ r2 0 = (Ok (VInt 5), r2)
  /\ __getitem__ r2 1 = (Ok (VInt 6), r2).
Proof. repeat split. Qed.

(** ** [evaluate_promises] *)

Section PromiseSteps.

Variable W : Type.
Variable call : nat -> W -> W * result value.
Context {I St : Type} `{Iterator I St value}.

(** An element that is not a promise goes through as it is, and no
    promise is called. *)
Lemma evaluate_promises_next_plain (i i' : I) (st st' : St) (w : W) (v : value) :
  next i st = (Yield v, i', st') ->
  (forall p, v <> VPromise p) ->
  evaluate_promises_next W call (Suspended i) (st, w)
  = (Yield v, Suspended i', (st', w)).
Proof.
  intros E Hv. unfold evaluate_promises_next. rewrite E.
  destruct v as [| | |p]; try reflexivity. now destruct (Hv p).
Qed.

(** A promise is called once and what it returns is yielded, whatever
    that is. *)
Lemma evaluate_promises_next_promise
  (i i' : I) (st st' : St) (w w' : W) (p : nat) (v : value) :
  next i st = (Yield (VPromise p), i', st') ->
  call p w = (w', Ok v) ->
  evaluate_promises_next W call (Suspended i) (st, w)
  = (Yield v, Suspended i', (st', w')).
Proof.
  intros E Ec. unfold evaluate_promises_next. now rewrite E, Ec.
Qed.

End PromiseSteps.

(** C10.  Run to its end over a sequence [l], with promises that log
    their invocations and return [res p], [evaluate_promises] yields the
    elements of [l] in order, each promise replaced by what it returned,
    itself a promise or not, and the others as they are; the invocations
    made are those of the promises of [l], once each and in order. *)
Theorem evaluate_promises_one_level
  (res : nat -> value) (l : list value) (log : list nat) (fuel : nat) :
  (length l < fuel)%nat ->
  list_ (H := evaluate_promises_iterator (list nat) (logged res))
    fuel (evaluate_promises l) (tt, log)
  = Some (Ok (map (resolve_once res) l), Finished, (tt, log ++ promises_of l)).
Proof.
  revert log fuel. unfold evaluate_promises.
  induction l as [|v l IH]; intros log fuel Hf;
    (destruct fuel as [|fuel]; [simpl in Hf; lia|]).
  - simpl. now rewrite app_nil_r.
  - assert (Hf' : (length l < fuel)%nat) by (simpl in Hf; lia).
    destruct v as [|n|s|p]; cbn [list_];
      unfold next at 1, evaluate_promises_iterator, evaluate_promises_next;
      change (@next (list value) unit value _ (?a :: ?b) tt) with (Yield a, b, tt);
      cbn iota beta; cbn [map resolve_once promises_of].
    + now rewrite IH.
    + now rewrite IH.
    + now rewrite IH.
    + unfold logged at 1. rewrite IH by assumption.
      now rewrite <- app_assoc.
Qed.

Lemma evaluate_promises_one_level_witness :
  (length [VInt 1; VPromise 3; VNone; VPromise 3; VPromise 5] < 6)%nat
  /\ list_ (H := evaluate_promises_iterator (list nat)
                   (logged (fun p => VPromise (p + 1))))
       6 (evaluate_promises [VInt 1; VPromise 3; VNone; VPromise 3; VPromise 5])
       (tt, [])
     = Some (Ok [VInt 1; VPromise 4; VNone; VPromise 4; VPromise 6], Finished,
             (tt, [3; 3; 5]%nat)).
Proof.
  split; [simpl; lia|].
  apply (evaluate_promises_one_level (fun p => VPromise (p + 1))
           [VInt 1; VPromise 3; VNone; VPromise 3; VPromise 5] [] 6).
  simpl; lia.
Defined.

(** * Further properties *)

(** ** [chunks] *)

Section ChunksFacts.

Variable A : Type.
Variable maxsize : Z.

Lemma next_chunks (g : @generator Z) (it : list A) :
  next (Iterator := chunks_iterator A maxsize) g it = chunks_next maxsize g it.
Proof. reflexivity. Qed.

Lemma concat_nonempty (cs : list (list A)) :
  Forall (fun c => (1 <= length c)%nat) cs -> cs <> [] -> concat cs <> [].
Proof.
  intros HF Hne. destruct cs as [|c cs]; [congruence|].
  inversion HF as [|? ? Hc _]; subst.
  destruct c; simpl in *; [lia|discriminate].
Qed.

(** A whole run of [chunks] with a positive size. *)
Lemma chunks_run (n : Z) (fuel : nat) (l : list A) :
  1 <= n <= maxsize + 1 -> (length l < fuel)%nat ->
  exists cs,
    list_ (H := chunks_iterator A maxsize) fuel (chunks n) l = Some (Ok cs, Finished, [])
    /\ concat cs = l
    /\ Forall (fun c => (1 <= length c <= Z.to_nat n)%nat) cs
    /\ (forall i, (S i < length cs)%nat -> length (nth i cs []) = Z.to_nat n)
    /\ Z.of_nat (length cs) = (Z.of_nat (length l) + n - 1) / n.
Proof.
  intros Hn. unfold chunks. revert l.
  induction fuel as [|fuel IH]; intros l Hf; [lia|].
  cbn [list_]. rewrite next_chunks. unfold chunks_next.
  destruct l as [|x rest].
  - exists []. repeat split; try constructor.
    + intros i Hi. simpl in Hi. lia.
    + simpl. rewrite Z.div_small; lia.
  - unfold list_islice.
    destruct (Z.ltb_spec (n - 1) 0) as [Hbad|_]; [lia|].
    destruct (Z.ltb_spec maxsize (n - 1)) as [Hbad|_]; [lia|]. cbn [orb].
    set (k := Z.to_nat (n - 1)).
    assert (Hk : Z.to_nat n = S k) by (unfold k; lia).
    destruct (IH (skipn k rest)) as (cs & Hrun & Hcat & Hsz & Hfull & Hcnt).
    { rewrite length_skipn. simpl in Hf. lia. }
    rewrite Hrun. exists ((x :: firstn k rest) :: cs).
    assert (Hsz1 : Forall (fun c => (1 <= length c)%nat) cs).
    { eapply Forall_impl; [|exact Hsz]. simpl. intros; lia. }
    split; [reflexivity|]. split; [|split; [|split]].
    + simpl. now rewrite Hcat, firstn_skipn.
    + constructor; [|assumption].
      simpl. rewrite length_firstn. lia.
    + intros [|i] Hi; simpl in Hi.
      * assert (Hne : cs <> []) by (destruct cs; simpl in *; [lia|discriminate]).
        pose proof (concat_nonempty cs Hsz1 Hne) as Hc. rewrite Hcat in Hc.
        assert (Hlen : (k < length rest)%nat).
        { destruct (Nat.ltb_spec k (length rest)) as [|Hge]; [assumption|].
          now rewrite skipn_all2 in Hc. }
        simpl. rewrite length_firstn. lia.
      * simpl. apply Hfull. lia.
    + cbn [length]. rewrite length_skipn in Hcnt.
      destruct (Nat.leb_spec (length rest) k) as [Hshort|Hlong].
      * replace (length rest - k)%nat with 0%nat in Hcnt by lia.
        rewrite Z.div_small in Hcnt by lia.
        destruct cs; cbn [length] in Hcnt |- *; [|lia].
        apply Z.div_unique with (r := Z.of_nat (length rest)); lia.
      * replace (Z.of_nat (S (length rest)) + n - 1)
          with (Z.of_nat (length rest - k) + n - 1 + 1 * n) by lia.
        rewrite Z.div_add by lia. lia.
Qed.

(** X1.  With [n >= 1], [chunks(it, n)] runs to its end, uses up the
    iterator, and its chunks put end to end are the elements the iterator
    produced: nothing is lost, repeated or moved. *)
Theorem chunks_concat (n : Z) (fuel : nat) (l : list A) :
  1 <= n <= maxsize + 1 -> (length l < fuel)%nat ->
  exists cs,
    list_ (H := chunks_iterator A maxsize) fuel (chunks n) l = Some (Ok cs, Finished, []) /\ concat cs = l.
Proof.
  intros Hn Hf. destruct (chunks_run n fuel l Hn Hf) as (cs & H1 & H2 & _).
  now exists cs.
Qed.

(** X2.  With [n >= 1], no chunk is empty or longer than [n], and every
    chunk but the last has exactly [n] elements. *)
Theorem chunks_sizes (n : Z) (fuel : nat) (l : list A) :
  1 <= n <= maxsize + 1 -> (length l < fuel)%nat ->
  exists cs,
    list_ (H := chunks_iterator A maxsize) fuel (chunks n) l = Some (Ok cs, Finished, [])
    /\ Forall (fun c => (1 <= length c <= Z.to_nat n)%nat) cs
    /\ forall i, (S i < length cs)%nat -> length (nth i cs []) = Z.to_nat n.
Proof.
  intros Hn Hf.
  destruct (chunks_run n fuel l Hn Hf) as (cs & H1 & _ & H3 & H4 & _).
  now exists cs.
Qed.

(** X3.  With [n >= 1], the number of chunks is the number of elements
    divided by [n], rounded up. *)
Theorem chunks_count (n : Z) (fuel : nat) (l : list A) :
  1 <= n <= maxsize + 1 -> (length l < fuel)%nat ->
  exists cs,
    list_ (H := chunks_iterator A maxsize) fuel (chunks n) l = Some (Ok cs, Finished, [])
    /\ Z.of_nat (length cs) = (Z.of_nat (length l) + n - 1) / n.
Proof.
  intros Hn Hf.
  destruct (chunks_run n fuel l Hn Hf) as (cs & H1 & _ & _ & _ & H5).
  now exists cs.
Qed.

(** X4.  With [n <= 0], [chunks] over an iterator that has an element
    raises [ValueError] on the first [next], after taking that element
    from the iterator; over an exhausted iterator it just ends, whatever
    [n] is. *)
Theorem chunks_nonpositive (n : Z) (fuel : nat) (x : A) (rest : list A) :
  n <= 0 ->
  list_ (H := chunks_iterator A maxsize) (S fuel) (chunks n) (x :: rest) = Some (Raise ValueError, Finished, rest)
  /\ list_ (H := chunks_iterator A maxsize) (S fuel) (chunks n) (@nil A) = Some (Ok [], Finished, []).
Proof.
  intros Hn. split; [|reflexivity].
  cbn [list_]. rewrite next_chunks. unfold chunks, chunks_next, list_islice.
  destruct (Z.ltb_spec (n - 1) 0) as [_|Hbad]; [reflexivity|lia].
Qed.

End ChunksFacts.

Lemma chunks_concat_witness :
  1 <= 3 <= (2 ^ 63 - 1) + 1 /\ (length [1; 2; 3; 4; 5; 6; 7] < 8)%nat
  /\ exists cs,
      list_ (H := chunks_iterator Z (2 ^ 63 - 1)) 8 (chunks 3) [1; 2; 3; 4; 5; 6; 7] = Some (Ok cs, Finished, [])
      /\ concat cs = [1; 2; 3; 4; 5; 6; 7].
Proof.
  split; [lia|]. split; [simpl; lia|].
  apply (chunks_concat Z (2 ^ 63 - 1) 3 8 [1; 2; 3; 4; 5; 6; 7]); simpl; lia.
Defined.

Lemma chunks_sizes_witness :
  1 <= 3 <= (2 ^ 63 - 1) + 1 /\ (length [1; 2; 3; 4; 5; 6; 7] < 8)%nat
  /\ exists cs,
      list_ (H := chunks_iterator Z (2 ^ 63 - 1)) 8 (chunks 3) [1; 2; 3; 4; 5; 6; 7] = Some (Ok cs, Finished, [])
      /\ Forall (fun c => (1 <= length c <= Z.to_nat 3)%nat) cs
      /\ forall i, (S i < length cs)%nat -> length (nth i cs []) = Z.to_nat 3.
Proof.
  split; [lia|]. split; [simpl; lia|].
  apply (chunks_sizes Z (2 ^ 63 - 1) 3 8 [1; 2; 3; 4; 5; 6; 7]); simpl; lia.
Defined.

Lemma chunks_count_witness :
  1 <= 3 <= (2 ^ 63 - 1) + 1 /\ (length [1; 2; 3; 4; 5; 6; 7] < 8)%nat
  /\ exists cs,
      list_ (H := chunks_iterator Z (2 ^ 63 - 1)) 8 (chunks 3) [1; 2; 3; 4; 5; 6; 7] = Some (Ok cs, Finished, [])
      /\ Z.of_nat (length cs) = (Z.of_nat (length [1; 2; 3; 4; 5; 6; 7]) + 3 - 1) / 3.
Proof.
  split; [lia|]. split; [simpl; lia|].
  apply (chunks_count Z (2 ^ 63 - 1) 3 8 [1; 2; 3; 4; 5; 6; 7]); simpl; lia.
Defined.

Lemma chunks_nonpositive_witness :
  0 <= 0
  /\ list_ (H := chunks_iterator Z (2 ^ 63 - 1)) 1 (chunks 0) [1; 2] = Some (Raise ValueError, Finished, [2])
  /\ list_ (H := chunks_iterator Z (2 ^ 63 - 1)) 1 (chunks 0) (@nil Z) = Some (Ok [], Finished, []).
Proof.
  split; [lia|]. apply (chunks_nonpositive Z (2 ^ 63 - 1) 0 0 1 [2]). lia.
Defined.

(** ** [padlist] *)

Section PadlistFacts.

Variable A : Type.
Variable maxsize capacity : Z.

(** X5.  For a size that is not negative and that a list can have, the
    result has exactly [size] elements. *)
Theorem padlist_length (l : list A) (size : Z) (d : A) :
  0 <= size <= capacity ->
  Z.of_nat (length l) <= capacity -> capacity <= maxsize ->
  exists r, padlist maxsize capacity l size d = Ok r
            /\ length r = Z.to_nat size.
Proof.
  intros Hs Hl Hc. unfold padlist, slice_to, list_mul, list_add.
  destruct (Z.ltb_spec size 0) as [Hneg|_]; [lia|].
  destruct (Z.ltb_spec (size - Z.of_nat (length l)) (- maxsize - 1))
    as [Hbad|_]; [lia|].
  destruct (Z.ltb_spec maxsize (size - Z.of_nat (length l)))
    as [Hbad|_]; [lia|]. cbn [orb].
  destruct (Z.ltb_spec capacity (size - Z.of_nat (length l)))
    as [Hbad|_]; [lia|].
  rewrite length_firstn, repeat_length.
  destruct (Z.ltb_spec capacity
              (Z.of_nat (Nat.min (Z.to_nat size) (length l)
                         + Z.to_nat (size - Z.of_nat (length l)))))
    as [Hbad|_]; [lia|].
  eexists. split; [reflexivity|].
  rewrite length_app, length_firstn, repeat_length. lia.
Qed.

(** X6.  A size that is at least the length keeps the whole container
    and appends the default as many times as elements are missing,
    unless that number is above [sys.maxsize], which raises
    [OverflowError], or the list asked for is longer than can be allocated,
    which raises [MemoryError]. *)
Theorem padlist_pads (l : list A) (size : Z) (d : A) :
  Z.of_nat (length l) <= size ->
  Z.of_nat (length l) <= capacity -> capacity <= maxsize ->
  padlist maxsize capacity l size d =
  if maxsize <? size - Z.of_nat (length l) then Raise OverflowError
  else if capacity <? size then Raise MemoryError
  else Ok (l ++ repeat d (Z.to_nat size - length l)).
Proof.
  intros Hs Hl Hc. unfold padlist, slice_to, list_mul, list_add.
  destruct (Z.ltb_spec size 0) as [Hneg|_]; [lia|].
  destruct (Z.ltb_spec (size - Z.of_nat (length l)) (- maxsize - 1))
    as [Hbad|_]; [lia|].
  destruct (Z.ltb_spec maxsize (size - Z.of_nat (length l)))
    as [Hover|Hfit]; cbn [orb]; [reflexivity|].
  rewrite firstn_all2 by lia.
  destruct (Z.ltb_spec capacity (size - Z.of_nat (length l))) as [Hbig|Hsmall].
  - destruct (Z.ltb_spec capacity size) as [_|Hbad]; [reflexivity|lia].
  - rewrite repeat_length.
    destruct (Z.ltb_spec capacity
                (Z.of_nat (length l + Z.to_nat (size - Z.of_nat (length l)))))
      as [H1|H1];
      destruct (Z.ltb_spec capacity size) as [H2|H2]; try lia; [reflexivity|].
    do 3 f_equal. lia.
Qed.

(** X7.  A size between 0 and the length cuts the container down to its
    first [size] elements and the default is not used.  (The container is
    a list that exists: it is no longer than can be allocated.) *)
Theorem padlist_truncates (l : list A) (size : Z) (d : A) :
  0 <= size <= Z.of_nat (length l) ->
  Z.of_nat (length l) <= capacity -> capacity <= maxsize ->
  padlist maxsize capacity l size d = Ok (firstn (Z.to_nat size) l).
Proof.
  intros Hs Hl Hc. unfold padlist, slice_to, list_mul, list_add.
  destruct (Z.ltb_spec size 0) as [Hneg|_]; [lia|].
  destruct (Z.ltb_spec (size - Z.of_nat (length l)) (- maxsize - 1))
    as [Hbad|_]; [lia|].
  destruct (Z.ltb_spec maxsize (size - Z.of_nat (length l)))
    as [Hbad|_]; [lia|]. cbn [orb].
  destruct (Z.ltb_spec capacity (size - Z.of_nat (length l)))
    as [Hbad|_]; [lia|].
  replace (Z.to_nat (size - Z.of_nat (length l))) with 0%nat by lia.
  cbn [repeat length]. rewrite length_firstn.
  destruct (Z.ltb_spec capacity
              (Z.of_nat (Nat.min (Z.to_nat size) (length l) + 0)))
    as [Hbad|_]; [lia|].
  now rewrite app_nil_r.
Qed.


End PadlistFacts.

Lemma padlist_length_witness :
  0 <= 3 <= 2 ^ 60
  /\ Z.of_nat (length [VStr "George"; VStr "Costanza"]) <= 2 ^ 60
  /\ 2 ^ 60 <= 2 ^ 63 - 1
  /\ exists r,
      padlist (2 ^ 63 - 1) (2 ^ 60) [VStr "George"; VStr "Costanza"] 3 VNone = Ok r
      /\ length r = Z.to_nat 3.
Proof.
  split; [lia|]. split; [simpl; lia|]. split; [lia|].
  apply (padlist_length value (2 ^ 63 - 1) (2 ^ 60)
           [VStr "George"; VStr "Costanza"] 3 VNone); simpl; lia.
Defined.

Lemma padlist_pads_witness :
  Z.of_nat (length [VStr "George"; VStr "Costanza"]) <= 3
  /\ Z.of_nat (length [VStr "George"; VStr "Costanza"]) <= 2 ^ 60
  /\ 2 ^ 60 <= 2 ^ 63 - 1
  /\ padlist (2 ^ 63 - 1) (2 ^ 60) [VStr "George"; VStr "Costanza"] 3 VNone
     = Ok [VStr "George"; VStr "Costanza"; VNone].
Proof.
  split; [simpl; lia|]. split; [simpl; lia|]. split; [lia|].
  apply (padlist_pads value (2 ^ 63 - 1) (2 ^ 60)
           [VStr "George"; VStr "Costanza"] 3 VNone); simpl; lia.
Defined.

Lemma padlist_truncates_witness :
  0 <= 2 <= Z.of_nat (length [10; 20; 30])
  /\ Z.of_nat (length [10; 20; 30]) <= 2 ^ 60
  /\ 2 ^ 60 <= 2 ^ 63 - 1
  /\ padlist (2 ^ 63 - 1) (2 ^ 60) [10; 20; 30] 2 0 = Ok [10; 20].
Proof.
  split; [simpl; lia|]. split; [simpl; lia|]. split; [lia|].
  apply (padlist_truncates Z (2 ^ 63 - 1) (2 ^ 60) [10; 20; 30] 2 0);
    simpl; lia.
Defined.


(** ** [uniq] *)

Section UniqFacts.

Variable A : Type.
Variable eq_dec : forall x y : A, {x = y} + {x <> y}.

Let unseen (seen : ListSet.set A) (x : A) : bool :=
  negb (ListSet.set_mem eq_dec x seen).

Lemma set_mem_add (x y : A) (seen : ListSet.set A) :
  ListSet.set_mem eq_dec y (ListSet.set_add eq_dec x seen)
  = if eq_dec x y then true else ListSet.set_mem eq_dec y seen.
Proof.
  destruct (eq_dec x y) as [->|Hne].
  - apply ListSet.set_mem_correct2. now apply ListSet.set_add_intro2.
  - destruct (ListSet.set_mem eq_dec y seen) eqn:Hm.
    + apply ListSet.set_mem_correct2, ListSet.set_add_intro1.
      now apply ListSet.set_mem_correct1 in Hm.
    + apply ListSet.set_mem_complete2. intros Hin.
      apply ListSet.set_add_elim in Hin. destruct Hin as [->|Hin]; [congruence|].
      now apply ListSet.set_mem_complete1 in Hm.
Qed.

Lemma filter_unseen_remove (seen : ListSet.set A) (x : A) (l : list A) :
  ListSet.set_mem eq_dec x seen = true ->
  filter (unseen seen) (remove eq_dec x l) = filter (unseen seen) l.
Proof.
  intros Hx. induction l as [|y l IH]; [reflexivity|].
  simpl. destruct (eq_dec x y) as [->|Hne].
  - unfold unseen at 2. rewrite Hx. simpl. exact IH.
  - simpl. now rewrite IH.
Qed.

Lemma filter_unseen_add (seen : ListSet.set A) (x : A) (l : list A) :
  filter (unseen (ListSet.set_add eq_dec x seen)) l
  = filter (unseen seen) (remove eq_dec x l).
Proof.
  induction l as [|y l IH]; [reflexivity|].
  simpl. unfold unseen at 1. rewrite set_mem_add.
  destruct (eq_dec x y) as [->|Hne]; simpl; [exact IH|].
  fold (unseen seen y). destruct (unseen seen y); now rewrite IH.
Qed.

Lemma filter_unseen_empty (l : list A) :
  filter (unseen (ListSet.empty_set A)) l = l.
Proof.
  induction l as [|y l IH]; [reflexivity|]. simpl. now rewrite IH.
Qed.

Lemma list_uniq_skip (fuel : nat) (seen : ListSet.set A) (x : A) (l : list A) :
  ListSet.set_mem eq_dec x seen = true ->
  list_ (H := uniq_iterator A eq_dec) (S fuel) (Suspended seen) (x :: l)
  = list_ (H := uniq_iterator A eq_dec) (S fuel) (Suspended seen) l.
Proof.
  intros Hx. cbn [list_].
  change (@next _ _ _ (uniq_iterator A eq_dec)) with (uniq_next A eq_dec).
  unfold uniq_next. cbn [uniq_pull]. now rewrite Hx.
Qed.

Lemma list_uniq_take (fuel : nat) (seen : ListSet.set A) (x : A) (l : list A) :
  ListSet.set_mem eq_dec x seen = false ->
  list_ (H := uniq_iterator A eq_dec) (S fuel) (Suspended seen) (x :: l)
  = match list_ (H := uniq_iterator A eq_dec) fuel
            (Suspended (ListSet.set_add eq_dec x seen)) l with
    | Some (Ok u, g, s) => Some (Ok (x :: u), g, s)
    | other => other
    end.
Proof.
  intros Hx. cbn [list_].
  change (@next _ _ _ (uniq_iterator A eq_dec)) with (uniq_next A eq_dec).
  unfold uniq_next at 1. cbn [uniq_pull]. now rewrite Hx.
Qed.

(** A run of the generator from any [seen]. *)
Lemma uniq_run_from (l : list A) (seen : ListSet.set A) (fuel : nat) :
  (length l < fuel)%nat ->
  list_ (H := uniq_iterator A eq_dec) fuel (Suspended seen) l
  = Some (Ok (filter (unseen seen) (first_occurrences A eq_dec l)), Finished, []).
Proof.
  revert seen fuel. induction l as [|x l IH]; intros seen fuel Hf;
    (destruct fuel as [|fuel]; [simpl in Hf; lia|]).
  - reflexivity.
  - destruct (ListSet.set_mem eq_dec x seen) eqn:Hx.
    + rewrite list_uniq_skip by assumption.
      rewrite IH by (simpl in Hf; lia).
      cbn [first_occurrences filter]. unfold unseen at 2. rewrite Hx.
      cbn [negb]. now rewrite filter_unseen_remove.
    + rewrite list_uniq_take by assumption.
      rewrite IH by (simpl in Hf; lia).
      cbn [first_occurrences filter]. unfold unseen at 2. rewrite Hx.
      cbn [negb]. now rewrite filter_unseen_add.
Qed.

Lemma first_occurrences_In (l : list A) (x : A) :
  In x (first_occurrences A eq_dec l) <-> In x l.
Proof.
  induction l as [|y l IH]; [reflexivity|]. simpl.
  destruct (eq_dec y x) as [->|Hne].
  - split; intros _; now left.
  - split; intros [H|H]; try congruence; right.
    + apply IH. now apply in_remove in H.
    + apply in_in_remove; [congruence|]. now apply IH.
Qed.

Lemma NoDup_remove_all (l : list A) (x : A) :
  NoDup l -> NoDup (remove eq_dec x l).
Proof.
  induction 1 as [|y l Hy Hl IH]; simpl; [constructor|].
  destruct (eq_dec x y); [assumption|].
  constructor; [|assumption]. intros Hin. now apply in_remove in Hin.
Qed.

Lemma first_occurrences_NoDup (l : list A) :
  NoDup (first_occurrences A eq_dec l).
Proof.
  induction l as [|y l IH]; simpl; constructor.
  - apply remove_In.
  - now apply NoDup_remove_all.
Qed.

Lemma first_occurrences_remove (l : list A) (x : A) :
  first_occurrences A eq_dec (remove eq_dec x l)
  = remove eq_dec x (first_occurrences A eq_dec l).
Proof.
  induction l as [|y l IH]; [reflexivity|]. simpl.
  destruct (eq_dec x y) as [->|Hne].
  - now rewrite IH, remove_remove_eq.
  - simpl. rewrite IH. f_equal. apply remove_remove_comm.
Qed.

Lemma first_occurrences_idempotent (l : list A) :
  first_occurrences A eq_dec (first_occurrences A eq_dec l)
  = first_occurrences A eq_dec l.
Proof.
  induction l as [|y l IH]; [reflexivity|]. simpl.
  now rewrite first_occurrences_remove, IH, remove_remove_eq.
Qed.

Lemma first_occurrences_length (l : list A) :
  (length (first_occurrences A eq_dec l) <= length l)%nat.
Proof.
  induction l as [|y l IH]; simpl; [lia|].
  pose proof (remove_length_le eq_dec (first_occurrences A eq_dec l) y). lia.
Qed.

(** X9.  [uniq] runs to the end of the iterator and yields its elements
    in the order of their first appearance: the first one, then what the
    rest yields once that element is taken out of it. *)
Theorem uniq_first_occurrences (l : list A) (fuel : nat) :
  (length l < fuel)%nat ->
  list_ (H := uniq_iterator A eq_dec) fuel uniq l
  = Some (Ok (first_occurrences A eq_dec l), Finished, []).
Proof.
  intros Hf. unfold uniq. rewrite uniq_run_from by assumption.
  now rewrite filter_unseen_empty.
Qed.

(** X10.  What [uniq] yields has no element twice and has exactly the
    elements of the input. *)
Theorem uniq_nodup_same_elements (l : list A) (fuel : nat) :
  (length l < fuel)%nat ->
  exists u,
    list_ (H := uniq_iterator A eq_dec) fuel uniq l = Some (Ok u, Finished, [])
    /\ NoDup u
    /\ forall x, In x u <-> In x l.
Proof.
  intros Hf. exists (first_occurrences A eq_dec l). split; [|split].
  - unfold uniq. rewrite uniq_run_from by assumption.
    now rewrite filter_unseen_empty.
  - apply first_occurrences_NoDup.
  - intros x. apply first_occurrences_In.
Qed.

(** X11.  [uniq] over what [uniq] yielded yields the same again. *)
Theorem uniq_idempotent (l : list A) (fuel : nat) :
  (length l < fuel)%nat ->
  exists u,
    list_ (H := uniq_iterator A eq_dec) fuel uniq l = Some (Ok u, Finished, [])
    /\ list_ (H := uniq_iterator A eq_dec) fuel uniq u = Some (Ok u, Finished, []).
Proof.
  intros Hf. exists (first_occurrences A eq_dec l).
  assert (Hu : forall l', (length l' < fuel)%nat ->
               list_ (H := uniq_iterator A eq_dec) fuel uniq l'
               = Some (Ok (first_occurrences A eq_dec l'), Finished, [])).
  { intros l' Hl'. unfold uniq. rewrite uniq_run_from by assumption.
    now rewrite filter_unseen_empty. }
  split; [now apply Hu|].
  rewrite Hu by (pose proof (first_occurrences_length l); lia).
  now rewrite first_occurrences_idempotent.
Qed.

End UniqFacts.

Lemma uniq_first_occurrences_witness :
  (length [1; 2; 2; 3; 1; 4] < 7)%nat
  /\ list_ (H := uniq_iterator Z Z.eq_dec) 7 uniq [1; 2; 2; 3; 1; 4]
     = Some (Ok [1; 2; 3; 4], Finished, []).
Proof.
  split; [simpl; lia|].
  apply (uniq_first_occurrences Z Z.eq_dec [1; 2; 2; 3; 1; 4] 7). simpl; lia.
Defined.

Lemma uniq_nodup_same_elements_witness :
  (length [1; 2; 2; 3; 1; 4] < 7)%nat
  /\ exists u,
      list_ (H := uniq_iterator Z Z.eq_dec) 7 uniq [1; 2; 2; 3; 1; 4]
      = Some (Ok u, Finished, [])
      /\ NoDup u
      /\ forall x, In x u <-> In x [1; 2; 2; 3; 1; 4].
Proof.
  split; [simpl; lia|].
  apply (uniq_nodup_same_elements Z Z.eq_dec [1; 2; 2; 3; 1; 4] 7). simpl; lia.
Defined.

Lemma uniq_idempotent_witness :
  (length [1; 2; 2; 3; 1; 4] < 7)%nat
  /\ exists u,
      list_ (H := uniq_iterator Z Z.eq_dec) 7 uniq [1; 2; 2; 3; 1; 4]
      = Some (Ok u, Finished, [])
      /\ list_ (H := uniq_iterator Z Z.eq_dec) 7 uniq u = Some (Ok u, Finished, []).
Proof.
  split; [simpl; lia|].
  apply (uniq_idempotent Z Z.eq_dec [1; 2; 2; 3; 1; 4] 7). simpl; lia.
Defined.

(** ** [first] and [evaluate_promises], further *)

Section FirstFacts.

Variable W : Type.
Variable call : nat -> W -> W * result value.

Lemma passed_over_plain (predicate : option (value -> bool)) (v : value) :
  passed_over predicate v = true ->
  is_promise v = false /\ matches predicate v = false.
Proof.
  unfold passed_over. intros H. apply andb_prop in H. destruct H as [H1 H2].
  now destruct (is_promise v), (matches predicate v).
Qed.

Lemma evaluate_promises_next_sequence (v : value) (l : list value) (w : W) :
  is_promise v = false ->
  evaluate_promises_next W call (Suspended (v :: l)) (tt, w)
  = (Yield v, Suspended l, (tt, w)).
Proof. intros Hv. destruct v; try discriminate Hv; reflexivity. Qed.

Lemma first_loop_sequence (predicate : option (value -> bool))
  (l : list value) (w : W) (fuel : nat) :
  Forall (fun v => is_promise v = false) l -> (length l < fuel)%nat ->
  first_loop W call fuel predicate (Suspended l) (tt, w)
  = Some (Ok (first_match predicate l), (tt, w)).
Proof.
  intros Hl. revert fuel. induction Hl as [|v l Hv Hl IH]; intros fuel Hf;
    (destruct fuel as [|fuel]; [simpl in Hf; lia|]).
  - reflexivity.
  - cbn [first_loop]. rewrite evaluate_promises_next_sequence by assumption.
    unfold first_match. cbn [find].
    destruct (matches predicate v); [reflexivity|].
    apply IH. simpl in Hf. lia.
Qed.

(** X12.  Over a sequence without promises [first] returns the first
    element the predicate accepts (the first that is not [None] when
    there is no predicate), and [None] when there is none, as on the empty
    sequence; no promise is called. *)
Theorem first_on_sequence (predicate : option (value -> bool))
  (l : list value) (w : W) (fuel : nat) :
  Forall (fun v => is_promise v = false) l -> (length l < fuel)%nat ->
  first W call fuel predicate l (tt, w)
  = Some (Ok (first_match predicate l), (tt, w)).
Proof. intros Hl Hf. unfold first, evaluate_promises. now apply first_loop_sequence. Qed.

Lemma evaluate_promises_next_chain_it
  (r : _regen value) (v : value) (rest : list value) (w : W) :
  __it r = v :: rest -> is_promise v = false ->
  evaluate_promises_next W call (Suspended chain_it) (r, w)
  = (Yield v, Suspended chain_it,
     ({| __it := rest; __index := __index r; __consumed := __consumed r |}, w)).
Proof.
  intros Hit Hv. unfold evaluate_promises_next.
  rewrite next_chain. unfold chain_next. rewrite Hit.
  destruct v; try discriminate Hv; reflexivity.
Qed.

Lemma evaluate_promises_next_chain_hit
  (r : _regen value) (pos : nat) (v : value) (w : W) :
  nth_error (__consumed r) pos = Some v -> is_promise v = false ->
  evaluate_promises_next W call (Suspended (chain_consumed pos)) (r, w)
  = (Yield v, Suspended (chain_consumed (S pos)), (r, w)).
Proof.
  intros Hpos Hv. unfold evaluate_promises_next.
  rewrite next_chain. unfold chain_next. rewrite Hpos.
  destruct v; try discriminate Hv; reflexivity.
Qed.

Lemma first_loop_chain_miss (predicate : option (value -> bool))
  (r : _regen value) (pos : nat) (w : W) (fuel : nat) :
  nth_error (__consumed r) pos = None ->
  first_loop W call fuel predicate (Suspended (chain_consumed pos)) (r, w)
  = first_loop W call fuel predicate (Suspended chain_it) (r, w).
Proof.
  intros Hpos. destruct fuel as [|fuel]; [reflexivity|].
  cbn [first_loop]. unfold evaluate_promises_next.
  rewrite !next_chain. unfold chain_next. now rewrite Hpos.
Qed.

Lemma first_loop_chain_it_match (predicate : option (value -> bool))
  (pre : list value) (v : value) (post : list value)
  (r : _regen value) (w : W) (fuel : nat) :
  __it r = pre ++ v :: post ->
  Forall (fun u => passed_over predicate u = true) pre ->
  is_promise v = false -> matches predicate v = true ->
  (length pre < fuel)%nat ->
  first_loop W call fuel predicate (Suspended chain_it) (r, w)
  = Some (Ok v, ({| __it := post; __index := __index r;
                    __consumed := __consumed r |}, w)).
Proof.
  intros Hit Hpre Hv Hm. revert r fuel Hit.
  induction Hpre as [|u pre Hu Hpre IH]; intros r fuel Hit Hf;
    (destruct fuel as [|fuel]; [simpl in Hf; lia|]); cbn [first_loop].
  - rewrite (evaluate_promises_next_chain_it r v post w Hit Hv).
    now rewrite Hm.
  - destruct (passed_over_plain _ _ Hu) as [Hu1 Hu2].
    rewrite (evaluate_promises_next_chain_it r u (pre ++ v :: post) w Hit Hu1).
    rewrite Hu2. rewrite IH by (simpl in *; (reflexivity || lia)).
    reflexivity.
Qed.

Lemma first_loop_chain_it_none (predicate : option (value -> bool))
  (r : _regen value) (w : W) (fuel : nat) :
  Forall (fun u => passed_over predicate u = true) (__it r) ->
  (length (__it r) < fuel)%nat ->
  first_loop W call fuel predicate (Suspended chain_it) (r, w)
  = Some (Ok VNone, ({| __it := []; __index := __index r;
                        __consumed := __consumed r |}, w)).
Proof.
  destruct r as [it idx cs]. cbn [__it __index __consumed].
  intros Hall. revert fuel. induction Hall as [|u it Hu Hall IH]; intros fuel Hf;
    (destruct fuel as [|fuel]; [simpl in Hf; lia|]); cbn [first_loop].
  - reflexivity.
  - destruct (passed_over_plain _ _ Hu) as [Hu1 Hu2].
    rewrite (evaluate_promises_next_chain_it (Build_regen (u :: it) idx cs)
               u it w eq_refl Hu1).
    rewrite Hu2. cbn [__index __consumed]. apply IH. simpl in Hf. lia.
Qed.

Lemma skipn_cons_nth {A : Type} (pos : nat) (l : list A) (a : A) (t : list A) :
  skipn pos l = a :: t -> nth_error l pos = Some a /\ skipn (S pos) l = t.
Proof.
  revert l. induction pos as [|pos IH]; intros [|x l] H; try discriminate H.
  - simpl in H. injection H as -> ->. now split.
  - simpl in H. apply IH in H. exact H.
Qed.

Lemma first_loop_chain_cached (predicate : option (value -> bool))
  (pre : list value) (v : value) (post : list value)
  (r : _regen value) (pos : nat) (w : W) (fuel : nat) :
  skipn pos (__consumed r) = pre ++ v :: post ->
  Forall (fun u => passed_over predicate u = true) pre ->
  is_promise v = false -> matches predicate v = true ->
  (length pre < fuel)%nat ->
  first_loop W call fuel predicate (Suspended (chain_consumed pos)) (r, w)
  = Some (Ok v, (r, w)).
Proof.
  intros Hsk Hpre Hv Hm. revert pos fuel Hsk.
  induction Hpre as [|u pre Hu Hpre IH]; intros pos fuel Hsk Hf;
    (destruct fuel as [|fuel]; [simpl in Hf; lia|]); cbn [first_loop].
  - destruct (skipn_cons_nth _ _ _ _ Hsk) as [Hn _].
    rewrite (evaluate_promises_next_chain_hit r pos v w Hn Hv). now rewrite Hm.
  - destruct (passed_over_plain _ _ Hu) as [Hu1 Hu2].
    destruct (skipn_cons_nth _ _ _ _ Hsk) as [Hn Hs].
    rewrite (evaluate_promises_next_chain_hit r pos u w Hn Hu1).
    rewrite Hu2. apply IH; [assumption|simpl in Hf; lia].
Qed.

(** X13.  Over a new wrapper whose source has no promise up to the first
    element [v] the predicate accepts, [first] returns [v] and has pulled
    the elements up to and including [v] and no more: the source holds
    what follows [v], and none of the pulled elements is in the cache. *)
Theorem first_on_new_wrapper_stops_at_match
  (predicate : option (value -> bool))
  (pre : list value) (v : value) (post : list value) (w : W) (fuel : nat) :
  Forall (fun u => passed_over predicate u = true) pre ->
  is_promise v = false -> matches predicate v = true ->
  (length pre < fuel)%nat ->
  let r0 := __init__ (pre ++ v :: post) in
  first W call fuel predicate (__iter__ r0) (r0, w)
  = Some (Ok v, ({| __it := post; __index := 0; __consumed := [] |}, w)).
Proof.
  intros Hpre Hv Hm Hf r0. unfold first, evaluate_promises, __iter__.
  rewrite first_loop_chain_miss by reflexivity.
  now rewrite (first_loop_chain_it_match predicate pre v post r0 w fuel eq_refl).
Qed.

(** X14.  Over a new wrapper whose source has no promise and nothing the
    predicate accepts, [first] returns [None] and leaves the wrapper with
    an exhausted source and an empty cache: the elements are gone. *)
Theorem first_on_new_wrapper_without_match
  (predicate : option (value -> bool)) (es : list value) (w : W) (fuel : nat) :
  Forall (fun u => passed_over predicate u = true) es ->
  (length es < fuel)%nat ->
  let r0 := __init__ es in
  first W call fuel predicate (__iter__ r0) (r0, w)
  = Some (Ok VNone, ({| __it := []; __index := 0; __consumed := [] |}, w)).
Proof.
  intros Hes Hf r0. unfold first, evaluate_promises, __iter__.
  rewrite first_loop_chain_miss by reflexivity.
  now rewrite (first_loop_chain_it_none predicate r0 w fuel).
Qed.

(** X15.  When the first element the predicate accepts is already in the
    cache, [first] returns it without pulling from the source: the
    wrapper is as it was. *)
Theorem first_match_in_cache
  (predicate : option (value -> bool))
  (pre : list value) (v : value) (post : list value)
  (r : _regen value) (w : W) (fuel : nat) :
  __consumed r = pre ++ v :: post ->
  Forall (fun u => passed_over predicate u = true) pre ->
  is_promise v = false -> matches predicate v = true ->
  (length pre < fuel)%nat ->
  first W call fuel predicate (__iter__ r) (r, w) = Some (Ok v, (r, w)).
Proof.
  intros Hcs Hpre Hv Hm Hf. unfold first, evaluate_promises, __iter__.
  now apply (first_loop_chain_cached predicate pre v post r 0 w fuel).
Qed.



End FirstFacts.

Lemma promises_of_cons (u : value) (l : list value) :
  promises_of (u :: l) = promises_of [u] ++ promises_of l.
Proof. destruct u; reflexivity. Qed.

Lemma evaluate_promises_next_logged
  (res : nat -> value) (u : value) (l : list value) (log : list nat) :
  evaluate_promises_next (list nat) (logged res) (Suspended (u :: l)) (tt, log)
  = (Yield (resolve_once res u), Suspended l, (tt, log ++ promises_of [u])).
Proof.
  destruct u; cbn [promises_of]; rewrite ?app_nil_r; reflexivity.
Qed.

(** X16.  [first] resolves promises as it goes and stops at the first
    element whose resolved value the predicate accepts: the promises called
    are those up to and including that element, once each and in order, and
    no promise after it is called. *)
Theorem first_calls_no_promise_after_match
  (res : nat -> value) (predicate : option (value -> bool))
  (pre : list value) (v : value) (post : list value)
  (log : list nat) (fuel : nat) :
  Forall (fun u => matches predicate (resolve_once res u) = false) pre ->
  matches predicate (resolve_once res v) = true ->
  (length pre < fuel)%nat ->
  first (list nat) (logged res) fuel predicate (pre ++ v :: post) (tt, log)
  = Some (Ok (resolve_once res v), (tt, log ++ promises_of (pre ++ [v]))).
Proof.
  intros Hpre Hm. unfold first, evaluate_promises. revert log fuel.
  induction Hpre as [|u pre Hu Hpre IH]; intros log fuel Hf;
    (destruct fuel as [|fuel]; [simpl in Hf; lia|]); cbn [first_loop app];
    rewrite evaluate_promises_next_logged.
  - now rewrite Hm.
  - rewrite Hu. rewrite IH by (simpl in Hf; lia).
    rewrite (promises_of_cons u (pre ++ [v])). now rewrite app_assoc.
Qed.

Lemma first_on_sequence_witness :
  Forall (fun v => is_promise v = false) [VNone; VInt 2; VInt 5]
  /\ (length [VNone; VInt 2; VInt 5] < 4)%nat
  /\ first unit no_call 4 None [VNone; VInt 2; VInt 5] (tt, tt)
     = Some (Ok (VInt 2), (tt, tt)).
Proof.
  split; [repeat constructor|]. split; [simpl; lia|].
  apply (first_on_sequence unit no_call None [VNone; VInt 2; VInt 5] tt 4);
    [repeat constructor|simpl; lia].
Defined.

Lemma first_on_new_wrapper_stops_at_match_witness :
  Forall (fun u => passed_over (Some gt3) u = true) [VInt 1; VInt 2; VInt 3]
  /\ is_promise (VInt 4) = false
  /\ matches (Some gt3) (VInt 4) = true
  /\ (length [VInt 1; VInt 2; VInt 3] < 4)%nat
  /\ first unit no_call 4 (Some gt3)
       (__iter__ (__init__ one_to_six)) (__init__ one_to_six, tt)
     = Some (Ok (VInt 4),
             ({| __it := [VInt 5; VInt 6]; __index := 0; __consumed := [] |}, tt)).
Proof.
  split; [repeat constructor|]. split; [reflexivity|]. split; [reflexivity|].
  split; [simpl; lia|].
  apply (first_on_new_wrapper_stops_at_match unit no_call (Some gt3)
           [VInt 1; VInt 2; VInt 3] (VInt 4) [VInt 5; VInt 6] tt 4);
    [repeat constructor|reflexivity|reflexivity|simpl; lia].
Defined.

Lemma first_on_new_wrapper_without_match_witness :
  Forall (fun u => passed_over (Some gt3) u = true) [VInt 1; VInt 2; VInt 3]
  /\ (length [VInt 1; VInt 2; VInt 3] < 4)%nat
  /\ first unit no_call 4 (Some gt3)
       (__iter__ (__init__ [VInt 1; VInt 2; VInt 3]))
       (__init__ [VInt 1; VInt 2; VInt 3], tt)
     = Some (Ok VNone, ({| __it := []; __index := 0; __consumed := [] |}, tt)).
Proof.
  split; [repeat constructor|]. split; [simpl; lia|].
  apply (first_on_new_wrapper_without_match unit no_call (Some gt3)
           [VInt 1; VInt 2; VInt 3] tt 4); [repeat constructor|simpl; lia].
Defined.

Lemma first_match_in_cache_witness :
  let r := {| __it := [VInt 6]; __index := 0;
              __consumed := [VInt 1; VInt 4; VInt 5] |} in
  __consumed r = [VInt 1] ++ VInt 4 :: [VInt 5]
  /\ Forall (fun u => passed_over (Some gt3) u = true) [VInt 1]
  /\ is_promise (VInt 4) = false
  /\ matches (Some gt3) (VInt 4) = true
  /\ (length [VInt 1] < 2)%nat
  /\ first unit no_call 2 (Some gt3) (__iter__ r) (r, tt) = Some (Ok (VInt 4), (r, tt)).
Proof.
  intros r.
  split; [reflexivity|]. split; [repeat constructor|]. split; [reflexivity|].
  split; [reflexivity|]. split; [simpl; lia|].
  apply (first_match_in_cache unit no_call (Some gt3)
           [VInt 1] (VInt 4) [VInt 5] r tt 2);
    [reflexivity|repeat constructor|reflexivity|reflexivity|simpl; lia].
Defined.

Lemma first_calls_no_promise_after_match_witness :
  let res := fun p => VInt (Z.of_nat p) in
  Forall (fun u => matches (Some gt3) (resolve_once res u) = false)
    [VPromise 2; VInt 1]
  /\ matches (Some gt3) (resolve_once res (VPromise 7)) = true
  /\ (length [VPromise 2; VInt 1] < 3)%nat
  /\ first (list nat) (logged res) 3 (Some gt3)
       ([VPromise 2; VInt 1] ++ VPromise 7 :: [VPromise 9]) (tt, [])
     = Some (Ok (VInt 7), (tt, [2; 7]%nat)).
Proof.
  intros res.
  split; [repeat constructor|]. split; [reflexivity|]. split; [simpl; lia|].
  apply (first_calls_no_promise_after_match res (Some gt3)
           [VPromise 2; VInt 1] (VPromise 7) [VPromise 9] [] 3);
    [repeat constructor|reflexivity|simpl; lia].
Defined.



(** ** Wrappers, further *)

Section RegenExtras.

Variable A : Type.

Lemma getitem_keeps_index (r : _regen A) (i : Z) :
  __index (snd (__getitem__ r i)) = __index r.
Proof.
  unfold __getitem__. destruct (i <? 0); [reflexivity|].
  destruct (list_getitem (__consumed r) i) as [x|[arg|msg]];
    [reflexivity| |reflexivity].
  rewrite pull_spec. now destruct (_ <=? _)%nat.
Qed.

Lemma after_accesses_stream (l : list access) (r : _regen A) :
  __consumed (after_accesses r l) ++ __it (after_accesses r l)
  = __consumed r ++ __it r
  /\ __index (after_accesses r l) = __index r.
Proof.
  unfold after_accesses. revert r.
  induction l as [|a l IH]; intros r; [now split|].
  cbn [fold_left]. destruct (IH (do_access r a)) as [H1 H2].
  rewrite H1, H2. destruct a as [i|]; cbn [do_access].
  - split; [apply getitem_keeps_stream|apply getitem_keeps_index].
  - split; [apply data_keeps_stream|reflexivity].
Qed.

(** What [r[i]] does for [i >= 0] on a wrapper whose cache and source
    make up [es]. *)
Lemma getitem_on_stream (es : list A) (r : _regen A) (i : Z) :
  __consumed r ++ __it r = es -> __index r = 0 -> 0 <= i ->
  (exists x r', __getitem__ r i = (Ok x, r')
                /\ nth_error es (Z.to_nat i) = Some x)
  \/ __getitem__ r i
     = (Raise (IndexError (Some i)), {| __it := []; __index := 0; __consumed := es |}).
Proof.
  intros Hes Hidx Hi.
  destruct (nth_error (__consumed r) (Z.to_nat i)) as [x|] eqn:Hx.
  - left. exists x, r. split; [now apply getitem_cached|].
    subst es. rewrite nth_error_app1; [assumption|].
    apply nth_error_Some. congruence.
  - apply nth_error_None in Hx. rewrite (getitem_miss A r i Hidx Hi Hx).
    destruct (Nat.leb_spec (S (Z.to_nat i)) (length (__it r))) as [Hlen|Hlen].
    + left. rewrite list_getitem_nonneg by assumption.
      assert (Hnth : nth_error (__consumed r ++ firstn (S (Z.to_nat i)) (__it r))
                       (Z.to_nat i) = nth_error es (Z.to_nat i)).
      { subst es.
        rewrite <- (firstn_skipn (S (Z.to_nat i)) (__it r)) at 2.
        rewrite app_assoc. symmetry. apply nth_error_app1.
        rewrite length_app, length_firstn. lia. }
      rewrite Hnth.
      destruct (nth_error es (Z.to_nat i)) as [x|] eqn:Hx'.
      * eexists _, _. split; reflexivity.
      * apply nth_error_None in Hx'. subst es. rewrite length_app in Hx'. lia.
    + right. now rewrite Hes.
Qed.

(** X19.  The first indexing of a new wrapper with [i >= 0]: when the
    source has more than [i] elements it returns the one at [i], having
    pulled and cached exactly the first [i + 1]; otherwise it raises
    [IndexError(i)], having drained the source into the cache. *)
Theorem index_on_new_wrapper (es : list A) (i : Z) :
  0 <= i ->
  __getitem__ (__init__ es) i =
  match nth_error es (Z.to_nat i) with
  | Some x => (Ok x, {| __it := skipn (S (Z.to_nat i)) es;
                        __index := 0;
                        __consumed := firstn (S (Z.to_nat i)) es |})
  | None => (Raise (IndexError (Some i)),
             {| __it := []; __index := 0; __consumed := es |})
  end.
Proof. intros Hi. now apply getitem_fresh. Qed.

(** X20.  As long as a wrapper is only indexed and materialized, in any
    order and with any indices, its cache followed by what its source has
    left is the sequence the source started with: the cache is a prefix of
    that sequence and no element is lost. *)
Theorem accesses_keep_stream (es : list A) (l : list access) :
  let r := after_accesses (__init__ es) l in
  __consumed r ++ __it r = es
  /\ cache_invariant es (length (__consumed r)) r.
Proof.
  intros r. destruct (after_accesses_stream l (__init__ es)) as [H1 _].
  fold r in H1. cbn [__init__ __consumed __it app] in H1.
  split; [assumption|]. unfold cache_invariant.
  rewrite <- H1. rewrite firstn_app, Nat.sub_diag, !firstn_all.
  simpl. now rewrite app_nil_r.
Qed.

(** X21.  On a wrapper that has only been indexed and materialized,
    [r[i]] with [i >= 0] never returns a wrong element: it returns the
    element at [i] of the source's sequence or raises [IndexError(i)], and
    it raises whenever [i] is not below the length. *)
Theorem index_sound_without_iteration (es : list A) (l : list access) (i : Z) :
  0 <= i ->
  let r := after_accesses (__init__ es) l in
  match fst (__getitem__ r i) with
  | Ok x => nth_error es (Z.to_nat i) = Some x
  | Raise e => e = IndexError (Some i)
  end
  /\ (Z.of_nat (length es) <= i ->
      fst (__getitem__ r i) = Raise (IndexError (Some i))).
Proof.
  intros Hi r.
  destruct (after_accesses_stream l (__init__ es)) as [H1 H2].
  fold r in H1, H2. cbn [__init__ __consumed __it __index app] in H1, H2.
  destruct (getitem_on_stream es r i H1 H2 Hi) as [(x & r' & Hg & Hx)|Hg];
    rewrite Hg; cbn [fst]; split; try assumption; try reflexivity.
  intros Hlen. assert (nth_error es (Z.to_nat i) = None)
    by (apply nth_error_None; lia). congruence.
Qed.

(** X22.  On a wrapper that has only been indexed and materialized, a
    failed [r[i]] with [i >= 0] leaves the source drained and the whole
    sequence in the cache, so that from then on every index below the
    length is answered, the failed one included if it was. *)
Theorem failed_index_materializes (es : list A) (l : list access) (i : Z) (e : exn) :
  0 <= i ->
  let r := after_accesses (__init__ es) l in
  fst (__getitem__ r i) = Raise e ->
  let r' := snd (__getitem__ r i) in
  r' = {| __it := []; __index := 0; __consumed := es |}
  /\ forall j, 0 <= j ->
     __getitem__ r' j =
     (match nth_error es (Z.to_nat j) with
      | Some x => Ok x
      | None => Raise (IndexError (Some j))
      end, r').
Proof.
  intros Hi r Hfail r'.
  destruct (after_accesses_stream l (__init__ es)) as [H1 H2].
  fold r in H1, H2. cbn [__init__ __consumed __it __index app] in H1, H2.
  assert (Hr' : r' = {| __it := []; __index := 0; __consumed := es |}).
  { unfold r'.
    destruct (getitem_on_stream es r i H1 H2 Hi) as [(x & r'' & Hg & Hx)|Hg];
      rewrite Hg in *; [discriminate Hfail|reflexivity]. }
  split; [assumption|]. intros j Hj. rewrite Hr'.
  now rewrite getitem_drained.
Qed.

(** X23.  An index below the length of the cache is answered from the
    cache: the wrapper and its source are not touched. *)
Theorem cached_index_leaves_source (r : _regen A) (i : Z) :
  0 <= i < Z.of_nat (length (__consumed r)) ->
  exists x, nth_error (__consumed r) (Z.to_nat i) = Some x
            /\ __getitem__ r i = (Ok x, r).
Proof.
  intros Hi.
  destruct (nth_error (__consumed r) (Z.to_nat i)) as [x|] eqn:Hx.
  - exists x. split; [reflexivity|]. apply getitem_cached; [lia|assumption].
  - apply nth_error_None in Hx. lia.
Qed.

(** X24.  [data] returns the cache followed by all the source had left
    and is idempotent: read again, it returns the same list and changes
    nothing. *)
Theorem data_idempotent (r : _regen A) :
  fst (data r) = __consumed r ++ __it r
  /\ data (snd (data r)) = (fst (data r), snd (data r)).
Proof.
  split; [reflexivity|]. unfold data. cbn [fst snd __it __index __consumed].
  now rewrite app_nil_r.
Qed.

(** X25.  A full traversal of [iter(r)], as a [for] loop or a
    comprehension makes it, yields the cache followed by what the source
    has left; it exhausts the source and leaves the cache as it found it.
    (Not so the builtin [list] applied to the wrapper itself, which asks
    for its length and thereby reads [data] before it iterates.) *)
Theorem traversal_yields_cache_then_source (r : _regen A) (fuel : nat) :
  (length (__consumed r) + length (__it r) < fuel)%nat ->
  list_ fuel (__iter__ r) r
  = Some (Ok (__consumed r ++ __it r), chain_done,
          {| __it := []; __index := __index r; __consumed := __consumed r |}).
Proof.
  intros Hf. unfold __iter__. rewrite list_chain_consumed by lia. reflexivity.
Qed.

(** X26.  Once [data] has been read, a traversal yields the whole list
    and leaves the wrapper unchanged, so it can be repeated at will. *)
Theorem traversal_after_data_repeats (r : _regen A) (fuel : nat) :
  (length (__consumed r) + length (__it r) < fuel)%nat ->
  let r' := snd (data r) in
  list_ fuel (__iter__ r') r' = Some (Ok (__consumed r ++ __it r), chain_done, r').
Proof.
  intros Hf r'. unfold __iter__.
  rewrite list_chain_consumed
    by (unfold r', data; cbn [snd __it __consumed]; rewrite length_app; simpl; lia).
  unfold r', data. cbn [snd __it __index __consumed skipn].
  now rewrite app_nil_r.
Qed.

(** X27.  A negative index on any wrapper drains the source first and
    then indexes cache and source together from the end; below minus the
    total length it raises the list's [IndexError], and the source has
    been drained all the same. *)
Theorem negative_index_drains (r : _regen A) (i : Z) :
  i < 0 ->
  __getitem__ r i =
  (match nth_error (rev (__consumed r ++ __it r)) (Z.to_nat (- i - 1)) with
   | Some x => Ok x
   | None => Raise (IndexError None)
   end,
   {| __it := []; __index := __index r; __consumed := __consumed r ++ __it r |}).
Proof.
  intros Hi. unfold __getitem__.
  destruct (Z.ltb_spec i 0) as [_|Hpos]; [|lia].
  unfold data. cbn [__consumed]. now rewrite list_getitem_negative.
Qed.

(** X29.  After any indexing and materializing, a first traversal still
    yields the whole sequence of the source, in order. *)
Theorem traversal_after_accesses (es : list A) (l : list access) (fuel : nat) :
  (length es < fuel)%nat ->
  let r := after_accesses (__init__ es) l in
  exists r', list_ fuel (__iter__ r) r = Some (Ok es, chain_done, r').
Proof.
  intros Hf r.
  destruct (after_accesses_stream l (__init__ es)) as [H1 _].
  fold r in H1. cbn [__init__ __consumed __it app] in H1.
  eexists. unfold __iter__. rewrite list_chain_consumed.
  - cbn [skipn]. rewrite H1. reflexivity.
  - rewrite <- H1, length_app in Hf. lia.
Qed.

End RegenExtras.

Lemma index_on_new_wrapper_witness :
  0 <= 1
  /\ __getitem__ (__init__ [10; 20; 30]) 1
     = (Ok 20, {| __it := [30]; __index := 0; __consumed := [10; 20] |}).
Proof.
  split; [lia|]. apply (index_on_new_wrapper Z [10; 20; 30] 1). lia.
Defined.

Lemma index_sound_without_iteration_witness :
  0 <= 1
  /\ (nth_error [10; 20; 30; 40] (Z.to_nat 1) = Some 20
      /\ (Z.of_nat (length [10; 20; 30; 40]) <= 1 ->
          fst (__getitem__ (after_accesses (__init__ [10; 20; 30; 40]) [get 0; get 2]) 1)
          = Raise (IndexError (Some 1)))).
Proof.
  split; [lia|].
  apply (index_sound_without_iteration Z [10; 20; 30; 40] [get 0; get 2] 1). lia.
Defined.

Lemma failed_index_materializes_witness :
  let r := after_accesses (__init__ [10; 20; 30]) [get 0] in
  let r' := snd (__getitem__ r 2) in
  0 <= 2
  /\ fst (__getitem__ r 2) = Raise (IndexError (Some 2))
  /\ r' = {| __it := []; __index := 0; __consumed := [10; 20; 30] |}
  /\ forall j, 0 <= j ->
     __getitem__ r' j =
     (match nth_error [10; 20; 30] (Z.to_nat j) with
      | Some x => Ok x
      | None => Raise (IndexError (Some j))
      end, r').
Proof.
  intros r r'. split; [lia|]. split; [reflexivity|].
  apply (failed_index_materializes Z [10; 20; 30] [get 0] 2 (IndexError (Some 2)));
    [lia|reflexivity].
Defined.

Lemma cached_index_leaves_source_witness :
  let r := {| __it := [30]; __index := 0; __consumed := [10; 20] |} in
  0 <= 1 < Z.of_nat (length (__consumed r))
  /\ exists x, nth_error (__consumed r) (Z.to_nat 1) = Some x
               /\ __getitem__ r 1 = (Ok x, r).
Proof.
  intros r. split; [simpl; lia|].
  apply (cached_index_leaves_source Z r 1). simpl; lia.
Defined.

Lemma traversal_yields_cache_then_source_witness :
  let r := {| __it := [30]; __index := 0; __consumed := [10; 20] |} in
  (length (__consumed r) + length (__it r) < 4)%nat
  /\ list_ 4 (__iter__ r) r
     = Some (Ok [10; 20; 30], chain_done,
             {| __it := []; __index := 0; __consumed := [10; 20] |}).
Proof.
  intros r. split; [simpl; lia|].
  apply (traversal_yields_cache_then_source Z r 4). simpl; lia.
Defined.

Lemma traversal_after_data_repeats_witness :
  let r := {| __it := [30]; __index := 0; __consumed := [10; 20] |} in
  let r' := {| __it := []; __index := 0; __consumed := [10; 20; 30] |} in
  (length (__consumed r) + length (__it r) < 4)%nat
  /\ list_ 4 (__iter__ r') r' = Some (Ok [10; 20; 30], chain_done, r').
Proof.
  intros r r'. split; [simpl; lia|].
  apply (traversal_after_data_repeats Z r 4). simpl; lia.
Defined.

Lemma negative_index_drains_witness :
  let r := {| __it := [30]; __index := 0; __consumed := [10; 20] |} in
  -4 < 0
  /\ __getitem__ r (-4)
     = (Raise (IndexError None),
        {| __it := []; __index := 0; __consumed := [10; 20; 30] |}).
Proof.
  intros r. split; [lia|]. apply (negative_index_drains Z r (-4)). lia.
Defined.

Lemma traversal_after_accesses_witness :
  let r := after_accesses (__init__ [10; 20; 30]) [get 1; get 0] in
  (length [10; 20; 30] < 4)%nat
  /\ exists r', list_ 4 (__iter__ r) r = Some (Ok [10; 20; 30], chain_done, r').
Proof.
  intros r. split; [simpl; lia|].
  apply (traversal_after_accesses Z [10; 20; 30] [get 1; get 0] 4). simpl; lia.
Defined.

(** ** [mlazy], further *)

Section MlazyRetries.

Import Mlazy.

Variable W : Type.
Variable super_evaluate : W -> W * result value.

Lemma evaluate_times_failing (k n : nat) (w : W) :
  (forall w', is_raise (snd (super_evaluate w')) = true) ->
  exists w' rs,
    evaluate_times _ (counting super_evaluate) k fresh (n, w)
    = (((n + k)%nat, w'), fresh, rs)
    /\ length rs = k /\ forallb is_raise rs = true.
Proof.
  intros Hfail. revert n w. induction k as [|k IH]; intros n w.
  - exists w, []. rewrite Nat.add_0_r. now repeat split.
  - cbn [evaluate_times]. unfold evaluate at 1. cbn [negb evaluated fresh].
    unfold counting at 1. specialize (Hfail w).
    destruct (super_evaluate w) as [w1 [v|e]]; [discriminate Hfail|].
    destruct (IH (S n) w1) as (w' & rs & Hrun & Hlen & Hall).
    fold fresh. rewrite Hrun. exists w', (Raise e :: rs).
    split; [now replace (n + S k)%nat with (S n + k)%nat by lia|].
    split; [simpl; lia|].
    simpl. exact Hall.
Qed.

(** X28.  As long as the computation raises, every [evaluate()] runs it
    again and raises: after [k] calls it has been invoked [k] times and the
    object is still unevaluated, with no value. *)
Theorem mlazy_retries_while_failing (k : nat) (w : W) :
  (forall w', is_raise (snd (super_evaluate w')) = true) ->
  exists w' rs,
    evaluate_times _ (counting super_evaluate) k fresh (0%nat, w)
    = ((k, w'), fresh, rs)
    /\ length rs = k /\ forallb is_raise rs = true.
Proof. intros Hfail. exact (evaluate_times_failing k 0 w Hfail). Qed.

End MlazyRetries.

Lemma mlazy_retries_while_failing_witness :
  (forall n, is_raise (snd (always_failing n)) = true)
  /\ exists w' rs,
      Mlazy.evaluate_times _ (Mlazy.counting always_failing) 3 Mlazy.fresh (0%nat, 0%nat)
      = ((3%nat, w'), Mlazy.fresh, rs)
      /\ length rs = 3%nat /\ forallb is_raise rs = true.
Proof.
  split; [reflexivity|].
  apply (mlazy_retries_while_failing nat always_failing 3 0%nat). reflexivity.
Defined.

(** ** [firstmethod] *)

Lemma called_app (l1 l2 : list object) :
  called (l1 ++ l2) = called l1 ++ called l2.
Proof.
  induction l1 as [|o l1 IH]; [reflexivity|].
  simpl. destruct (on_method o); simpl; now rewrite IH.
Qed.

Lemma matcher_skips (o : object) (rest : list object) (log : list nat) :
  skipped o = true ->
  _matcher _ _ _ recorded_get recorded_invoke (o :: rest) log
  = _matcher _ _ _ recorded_get recorded_invoke rest (log ++ called [o]).
Proof.
  unfold skipped. intros Hs. destruct o as [n [|v|e]];
    cbn -[is_none is_AttributeError] in Hs |- *.
  - now rewrite app_nil_r.
  - now rewrite Hs.
  - now rewrite Hs.
Qed.


